(** * Unused-symbol classification pass of [src/index.ts]

    A shallow embedding of [run] (src/src/index.ts) and of the closures it
    builds ([updateProcessingOutput], [addIssue], the per-file and
    per-declaration callbacks), followed by the properties of the
    classification pass.

    Conventions of the embedding:
    - the objects [issues[issueType]], keyed by file, are [gmap]s keyed by
      strings; [issues.files] (a JS [Set] of paths) is a [gset];
    - the mutable [issues], [counters] and the terminal driven by
      [lineRewriter] are threaded as one explicit [State];
    - [getFirstChildByKindOrThrow] and [getLastChildByKindOrThrow] can
      throw, so the callbacks return a [result];
    - what ts-morph, the TypeScript language service and the sibling
      modules [./util] and [./log] answer is supplied by a [ParseOracle];
    - JS numbers that are not plain counters (the percentage) are IEEE 754
      binary64 values, modelled with the Standard Library's [spec_float];
    - the per-file objects [issues[issueType][key]] are plain JS objects
      written and read by symbol, so they are modelled with their own
      properties and their prototype: a write of the key [__proto__] sets
      the prototype instead of storing a property, and a read sees what
      the object inherits;
    - file keys are paths of source files, absolute or relative to [cwd],
      with their extension: none is [__proto__] or the name of another
      member of [Object.prototype], which is why the objects
      [issues[issueType]] can be read and written as maps. *)

From Stdlib Require Import ZArith Ascii.
From Stdlib Require Import Floats.SpecFloat.
From stdpp Require Import base option list strings gmap sets.
From stdpp Require Import sorting.

Local Open Scope string_scope.
Local Open Scope list_scope.
Local Open Scope nat_scope.

(** ** JS numbers *)

Module Number.

Definition prec : Z := 53.
Definition emax : Z := 1024.

(** The binary64 value of an integer (exact below 2^53). *)
Definition of_Z (z : Z) : spec_float := binary_normalize prec emax z 0 false.
Definition of_nat (n : nat) : spec_float := of_Z (Z.of_nat n).

(** JS [x / y] and [x * y]. *)
Definition div (x y : spec_float) : spec_float := SFdiv prec emax x y.
Definition mul (x y : spec_float) : spec_float := SFmul prec emax x y.

(** JS [Math.floor]: zeros, infinities and NaN are returned as they are;
    a finite value with a non-negative exponent is an integer already. *)
Definition floor (x : spec_float) : spec_float :=
  match x with
  | S754_finite s m e =>
      if (0 <=? e)%Z then x
      else
        let v := if s then Z.neg m else Z.pos m in
        let q := (v / 2 ^ (- e))%Z in
        if (q =? 0)%Z then S754_zero false else of_Z q
  | _ => x
  end.

(** [x <= y] on JS numbers, used to read a percentage back. *)
Definition leb (x y : spec_float) : bool := SFleb x y.

End Number.

(** ** Syntax trees handed out by ts-morph *)

(** The members of [ts.SyntaxKind] that [run] tests for, and a few more
    that exported declarations commonly have. *)
Inductive SyntaxKind : Type :=
| Identifier
| FunctionDeclaration
| ClassDeclaration
| TypeAliasDeclaration
| InterfaceDeclaration
| EnumDeclaration
| PropertyAccessExpression
| VariableDeclaration
| ModuleDeclaration
| OtherKind (code : nat).

#[global] Instance SyntaxKind_eq_dec : EqDecision SyntaxKind.
Proof. solve_decision. Defined.

(** A node: its identity (JS object identity, which [new Set(...)]
    compares), its kind, its source text and its children in order. *)
#[local] Unset Elimination Schemes.
Inductive Node : Type :=
| MkNode (id : nat) (kind : SyntaxKind) (text : string) (children : list Node).

#[local] Set Elimination Schemes.

Definition nodeId (n : Node) : nat := let 'MkNode i _ _ _ := n in i.
Definition getKind (n : Node) : SyntaxKind := let 'MkNode _ k _ _ := n in k.
Definition getText (n : Node) : string := let 'MkNode _ _ t _ := n in t.
Definition getChildren (n : Node) : list Node := let 'MkNode _ _ _ c := n in c.

Definition isKind (n : Node) (k : SyntaxKind) : bool := bool_decide (getKind n = k).

Definition getFirstChildByKind (n : Node) (k : SyntaxKind) : option Node :=
  List.find (fun c => isKind c k) (getChildren n).

Definition getLastChildByKind (n : Node) (k : SyntaxKind) : option Node :=
  List.find (fun c => isKind c k) (rev (getChildren n)).

(** Depth-first, pre-order search below [n] ([n] itself is not a candidate). *)
Fixpoint getFirstDescendantByKind (n : Node) (k : SyntaxKind) : option Node :=
  let 'MkNode _ _ _ cs := n in
  (fix first (l : list Node) : option Node :=
     match l with
     | [] => None
     | c :: rest =>
         if isKind c k then Some c
         else match getFirstDescendantByKind c k with
              | Some d => Some d
              | None => first rest
              end
     end) cs.

(** ** Results of code that may throw *)

Inductive result (A : Type) : Type :=
| Ok (a : A)
| Throw (message : string).
Arguments Ok {A} a.
Arguments Throw {A} message.

Definition bind {A B : Type} (r : result A) (k : A -> result B) : result B :=
  match r with
  | Ok a => k a
  | Throw m => Throw m
  end.

(** [xs.forEach(f)] over a state: the elements in order, a throw ends it. *)
Fixpoint forEach {A S : Type} (f : A -> S -> result S) (xs : list A) (s : S) : result S :=
  match xs with
  | [] => Ok s
  | x :: rest => bind (f x s) (forEach f rest)
  end.

(** [ts.SyntaxKind[kind]], the name ts-morph puts in its messages; the
    kinds that are not listed by name are never asked for by [run]. *)
Definition getSyntaxKindName (k : SyntaxKind) : string :=
  match k with
  | Identifier => "Identifier"
  | FunctionDeclaration => "FunctionDeclaration"
  | ClassDeclaration => "ClassDeclaration"
  | TypeAliasDeclaration => "TypeAliasDeclaration"
  | InterfaceDeclaration => "InterfaceDeclaration"
  | EnumDeclaration => "EnumDeclaration"
  | PropertyAccessExpression => "PropertyAccessExpression"
  | VariableDeclaration => "VariableDeclaration"
  | ModuleDeclaration => "ModuleDeclaration"
  | OtherKind _ => "Unknown"
  end.

(** The message of the two [OrThrow] lookups of ts-morph. *)
Definition childExpected (k : SyntaxKind) : string :=
  "A child of the kind " +:+ getSyntaxKindName k +:+ " was expected.".

Definition getFirstChildByKindOrThrow (n : Node) (k : SyntaxKind) : result Node :=
  match getFirstChildByKind n k with
  | Some c => Ok c
  | None => Throw (childExpected k)
  end.

Definition getLastChildByKindOrThrow (n : Node) (k : SyntaxKind) : result Node :=
  match getLastChildByKind n k with
  | Some c => Ok c
  | None => Throw (childExpected k)
  end.

(** ** Data model ([./types]) *)

(** [IssueType] without ['files']: the categories [addIssue] accepts. *)
Inductive IssueType : Type := exports | types | duplicates | members.

#[global] Instance IssueType_eq_dec : EqDecision IssueType.
Proof. solve_decision. Defined.

Record Issue : Type := MkIssue {
  filePath : string;
  symbol : string;
  symbolType : option string;
  symbols : option (list string)
}.

(** A per-file object [issues[issueType][key]], a plain JS object: its
    own properties, which are issues by symbol, and its prototype, which
    is [Object.prototype] ([None]) until a write of the key [__proto__]
    replaces it by the issue written. *)
Record FileIssues : Type := MkFileIssues {
  ownIssues : gmap string Issue;
  prototypeIssue : option Issue
}.

(** [{}]. *)
Definition emptyObject : FileIssues := MkFileIssues ∅ None.

(** [issues[issueType]]: file key, then the per-file object. *)
Abbreviation IssueMap := (gmap string FileIssues).

Record Issues : Type := MkIssues {
  issues_files : gset string;
  issues_exports : IssueMap;
  issues_types : IssueMap;
  issues_duplicates : IssueMap;
  issues_members : IssueMap
}.

Record Counters : Type := MkCounters {
  counters_files : nat;
  counters_exports : nat;
  counters_types : nat;
  counters_duplicates : nat;
  counters_members : nat;
  counters_processed : nat
}.

Record Include : Type := MkInclude {
  include_files : bool;
  include_exports : bool;
  include_types : bool;
  include_members : bool;
  include_duplicates : bool
}.

(** The fields of [Configuration] that [run] reads; [entryFiles] and
    [filePatterns] only feed [createProject], whose answers are inputs
    of [run] below. *)
Record Configuration : Type := MkConfiguration {
  cwd : string;
  isShowProgress : bool;
  include : Include;
  isReadPublicTag : bool
}.

(** A ts-morph [SourceFile]: [getFilePath()] and
    [getExportedDeclarations()], a [Map] from export name to declarations,
    kept as an association list in insertion order. *)
Record SourceFile : Type := MkSourceFile {
  getFilePath : string;
  getExportedDeclarations : list (string * list Node)
}.

(** ** What the collaborators answer *)

Record ParseOracle : Type := MkParseOracle {
  (** [getType] of [./util]: [None] stands for an absent (falsy) answer. *)
  getType : Node -> option string;
  (** [ts.getJSDocPublicTag(declaration.compilerNode)], as a truth value. *)
  getJSDocPublicTag : Node -> bool;
  (** [identifier.findReferences()]: one entry per referenced symbol, each
      the file names of its [compilerObject.references]. *)
  findReferences : Node -> list (list string);
  (** [findReferencingNamespaceNodes] of ts-morph-helpers. *)
  findReferencingNamespaceNodes : SourceFile -> list Node;
  (** [path.relative] of Node.js. *)
  relative : string -> string -> string
}.

(** ** The terminal *)

(** One element of [messages]. [getLine] belongs to [./log]; its two
    arguments are kept instead of the string it formats. *)
Inductive Line : Type :=
| ProgressLine (percentage : spec_float) (counter total : nat)
| CountLine (count : nat) (label : string)
| TextLine (text : string).

(** What [lineRewriter] is asked to do, oldest first. *)
Inductive TerminalEvent : Type :=
| Update (messages : list Line)
| ResetLines.

Record State : Type := MkState {
  issues : Issues;
  counters : Counters;
  terminal : list TerminalEvent
}.

(** [issues[issueType]] and [counters[issueType]], read and written. *)
Definition issuesOf (t : IssueType) (i : Issues) : IssueMap :=
  match t with
  | exports => issues_exports i
  | types => issues_types i
  | duplicates => issues_duplicates i
  | members => issues_members i
  end.

Definition setIssuesOf (t : IssueType) (m : IssueMap) (i : Issues) : Issues :=
  match t with
  | exports => MkIssues (issues_files i) m (issues_types i) (issues_duplicates i) (issues_members i)
  | types => MkIssues (issues_files i) (issues_exports i) m (issues_duplicates i) (issues_members i)
  | duplicates => MkIssues (issues_files i) (issues_exports i) (issues_types i) m (issues_members i)
  | members => MkIssues (issues_files i) (issues_exports i) (issues_types i) (issues_duplicates i) m
  end.

Definition counterOf (t : IssueType) (c : Counters) : nat :=
  match t with
  | exports => counters_exports c
  | types => counters_types c
  | duplicates => counters_duplicates c
  | members => counters_members c
  end.

Definition setCounterOf (t : IssueType) (n : nat) (c : Counters) : Counters :=
  match t with
  | exports =>
      MkCounters (counters_files c) n (counters_types c) (counters_duplicates c)
        (counters_members c) (counters_processed c)
  | types =>
      MkCounters (counters_files c) (counters_exports c) n (counters_duplicates c)
        (counters_members c) (counters_processed c)
  | duplicates =>
      MkCounters (counters_files c) (counters_exports c) (counters_types c) n
        (counters_members c) (counters_processed c)
  | members =>
      MkCounters (counters_files c) (counters_exports c) (counters_types c)
        (counters_duplicates c) n (counters_processed c)
  end.

(** [object[text] = issue] on a per-file object: the key [__proto__] is
    the accessor of [Object.prototype], whose setter makes the issue the
    prototype of the object and stores no property; every other key
    becomes (or stays) an own property. *)
Definition writeIssue (text : string) (issue : Issue) (object : FileIssues) : FileIssues :=
  if String.eqb text "__proto__"
  then MkFileIssues (ownIssues object) (Some issue)
  else MkFileIssues (<[text := issue]> (ownIssues object)) (prototypeIssue object).

(** The issue that [object[text]] reads, when it reads an issue: an own
    property, or under [__proto__] the prototype once it is an issue. *)
Definition readIssue (text : string) (object : FileIssues) : option Issue :=
  if String.eqb text "__proto__" then prototypeIssue object
  else ownIssues object !! text.

(** The members of [Object.prototype]; reading any of them on a plain
    object gives a function or, for [__proto__], the prototype. *)
Definition objectPrototypeMembers : list string :=
  ["__proto__"; "constructor"; "hasOwnProperty"; "isPrototypeOf";
   "propertyIsEnumerable"; "toLocaleString"; "toString"; "valueOf";
   "__defineGetter__"; "__defineSetter__"; "__lookupGetter__"; "__lookupSetter__"].

(** Whether [issue[text]] is a truthy property of an issue object: its
    path and symbol when not empty, [symbolType] and [symbols] when the
    issue was built with them. *)
Definition issueFieldTruthy (text : string) (issue : Issue) : bool :=
  (String.eqb text "filePath" && negb (String.eqb (filePath issue) EmptyString))
  || (String.eqb text "symbol" && negb (String.eqb (symbol issue) EmptyString))
  || (String.eqb text "symbolType"
      && match symbolType issue with
         | Some type => negb (String.eqb type EmptyString)
         | None => false
         end)
  || (String.eqb text "symbols" && bool_decide (is_Some (symbols issue))).

(** [object[text]] as a truth value: an own issue, a member of
    [Object.prototype], or a truthy property of the issue that became the
    prototype. *)
Definition truthyRead (text : string) (object : FileIssues) : bool :=
  bool_decide (is_Some (ownIssues object !! text))
  || bool_decide (text ∈ objectPrototypeMembers)
  || match prototypeIssue object with
     | Some issue => issueFieldTruthy text issue
     | None => false
     end.

(** [issues.X[file]?.[text]] as a truth value. *)
Definition hasIssue (m : IssueMap) (file text : string) : bool :=
  match m !! file with
  | Some object => truthyRead text object
  | None => false
  end.

(** [issues.X[file]?.[text]] itself, when it is an issue. *)
Definition lookupIssue (m : IssueMap) (file text : string) : option Issue :=
  m !! file ≫= readIssue text.

(** Lines 68-69 on one category: the per-file object is created when it
    is missing, and the issue written to it under its symbol. *)
Definition storeIssue (file text : string) (issue : Issue) (m : IssueMap) : IssueMap :=
  <[file := writeIssue text issue (default emptyObject (m !! file))]> m.

(** The own property [issues.X[file][text]], what enumerating the keys
    of the per-file object shows. *)
Definition ownIssue (m : IssueMap) (file text : string) : option Issue :=
  m !! file ≫= (fun object => ownIssues object !! text).

(** [symbols.join(',')]. *)
Fixpoint join (sep : string) (parts : list string) : string :=
  match parts with
  | [] => EmptyString
  | [p] => p
  | p :: rest => p +:+ sep +:+ join sep rest
  end.

(** Modelled from the spec: [partitionSourceFiles] of [./util], which is
    not among the sources. The candidates whose path is one of the
    reference set's, and the others, each in input order. *)
Definition partitionSourceFiles (candidates referenceSet : list SourceFile)
  : list SourceFile * list SourceFile :=
  let paths := getFilePath <$> referenceSet in
  List.partition (fun file => bool_decide (getFilePath file ∈ paths)) candidates.

(** Modelled from the spec: [findDuplicateExportedNames] of
    ts-morph-helpers is not among the sources. Export names are grouped
    by the declaration (its identity) they are bound to, names and groups
    in detection order; the groups of two or more names are returned.
    [addName] puts one name into the group of its declaration, opening a
    group at the end when the declaration is new. *)
Fixpoint addName (declaration : nat) (name : string) (groups : list (nat * list string))
  : list (nat * list string) :=
  match groups with
  | [] => [(declaration, [name])]
  | (d, names) :: rest =>
      if decide (d = declaration) then (d, names ++ [name]) :: rest
      else (d, names) :: addName declaration name rest
  end.

(** Modelled from the spec: the groups of all export names of a file, the
    names of the [Map] in order and, for each, its declarations in order. *)
Definition groupExportedNames (exportDeclarations : list (string * list Node))
  : list (nat * list string) :=
  foldl (fun groups entry =>
           foldl (fun groups declaration => addName (nodeId declaration) entry.1 groups)
                 groups entry.2)
        [] exportDeclarations.

(** Modelled from the spec: [findDuplicateExportedNames(sourceFile)], the
    groups of size two or more. *)
Definition findDuplicateExportedNames (sourceFile : SourceFile) : list (list string) :=
  filter (fun names => 2 ≤ length names)
    (snd <$> groupExportedNames (getExportedDeclarations sourceFile)).

(** ** The closures of [run] *)

Section Run.

Context (oracle : ParseOracle) (configuration : Configuration).

Section Pass.

(** The two partitions the closures capture. *)
Context (unusedProductionFiles usedNonEntryFiles : list SourceFile).

(** Lines 47-63. *)
Definition updateProcessingOutput (item : Issue) (st : State) : State :=
  if negb (isShowProgress configuration) then st
  else
    let counter := length unusedProductionFiles + counters_processed (counters st) in
    let total := length unusedProductionFiles + length usedNonEntryFiles in
    let percentage :=
      Number.floor
        (Number.mul (Number.div (Number.of_nat counter) (Number.of_nat total))
                    (Number.of_nat 100)) in
    let messages :=
      ([ProgressLine percentage counter total]
       ++ (if include_files (include configuration)
           then [CountLine (length unusedProductionFiles) "unused files"] else [])
       ++ (if include_exports (include configuration)
           then [CountLine (counters_exports (counters st)) "unused exports"] else [])
       ++ (if include_types (include configuration)
           then [CountLine (counters_types (counters st)) "unused types"] else [])
       ++ (if include_members (include configuration)
           then [CountLine (counters_members (counters st)) "unused namespace members"]
           else [])
       ++ (if include_duplicates (include configuration)
           then [CountLine (counters_duplicates (counters st)) "duplicate exports"] else [])
       ++ (if counter <? total
           then [TextLine EmptyString;
                 TextLine ("Processing: "
                           +:+ relative oracle (cwd configuration) (filePath item))]
           else [])) in
    MkState (issues st) (counters st) (terminal st ++ [Update messages]).

(** Lines 65-72. *)
Definition addIssue (issueType : IssueType) (issue : Issue) (st : State) : State :=
  let key := relative oracle (cwd configuration) (filePath issue) in
  let byFile := issuesOf issueType (issues st) in
  let bySymbol := default emptyObject (byFile !! key) in
  let issues' :=
    setIssuesOf issueType (<[key := writeIssue (symbol issue) issue bySymbol]> byFile)
                (issues st) in
  let counters' :=
    setCounterOf issueType (S (counterOf issueType (counters st))) (counters st) in
  let st' := MkState issues' counters' (terminal st) in
  if isShowProgress configuration then updateProcessingOutput issue st' else st'.

(** Lines 82-88. *)
Definition reportDuplicates (sourceFile : SourceFile) (st : State) : State :=
  if include_duplicates (include configuration) then
    let duplicateExports := findDuplicateExportedNames sourceFile in
    foldl (fun st symbols =>
             let symbol := join "," symbols in
             addIssue duplicates
                      (MkIssue (getFilePath sourceFile) symbol None (Some symbols)) st)
          st duplicateExports
  else st.

(** Lines 105-121: the representative identifier of a declaration. *)
Definition resolveIdentifier (declaration : Node) : result (option Node) :=
  if isKind declaration Identifier then Ok (Some declaration)
  else if isKind declaration FunctionDeclaration
          || isKind declaration ClassDeclaration
          || isKind declaration TypeAliasDeclaration
          || isKind declaration InterfaceDeclaration
          || isKind declaration EnumDeclaration
  then bind (getFirstChildByKindOrThrow declaration Identifier) (fun i => Ok (Some i))
  else if isKind declaration PropertyAccessExpression
  then bind (getLastChildByKindOrThrow declaration Identifier) (fun i => Ok (Some i))
  else Ok (getFirstDescendantByKind declaration Identifier).

(** Lines 98-101: [true] when the declaration is filtered out. *)
Definition categoryFiltered (type : option string) : bool :=
  negb (include_members (include configuration))
  && ((negb (include_types (include configuration)) && bool_decide (is_Some type))
      || (negb (include_exports (include configuration)) && negb (bool_decide (is_Some type)))).

(** Line 103. *)
Definition publicTagged (declaration : Node) : bool :=
  isReadPublicTag configuration && getJSDocPublicTag oracle declaration.

(** Lines 126-128: the already-reported guard. *)
Definition alreadyReported (file identifierText : string) (st : State) : bool :=
  (include_exports (include configuration)
   && hasIssue (issues_exports (issues st)) file identifierText)
  || (include_types (include configuration)
      && hasIssue (issues_types (issues st)) file identifierText)
  || (include_members (include configuration)
      && hasIssue (issues_members (issues st)) file identifierText).

(** Lines 135-137. *)
Definition isReferencedOnlyBySelf (refs : list (list string)) (file : string) : bool :=
  let refFiles : gset string := list_to_set (concat refs) in
  match elements refFiles with
  | [only] => bool_decide (only = file)
  | _ => false
  end.

(** Lines 130-149: the reference query and the classification. *)
Definition classify (sourceFile : SourceFile) (type : option string)
           (identifier : Node) (st : State) : State :=
  let file := getFilePath sourceFile in
  let identifierText := getText identifier in
  let refs := findReferences oracle identifier in
  if length refs =? 0 then
    addIssue exports (MkIssue file identifierText None None) st
  else if negb (isReferencedOnlyBySelf refs file) then st
  else if 0 <? length (findReferencingNamespaceNodes oracle sourceFile) then
    addIssue members (MkIssue file identifierText None None) st
  else
    match type with
    | Some t => addIssue types (MkIssue file identifierText (Some t) None) st
    | None => addIssue exports (MkIssue file identifierText None None) st
    end.

(** Lines 95-151: the callback of [declarations.forEach]. *)
Definition processDeclaration (sourceFile : SourceFile) (declaration : Node)
           (st : State) : result State :=
  let type := getType oracle declaration in
  if categoryFiltered type then Ok st
  else if publicTagged declaration then Ok st
  else
    bind (resolveIdentifier declaration) (fun identifier =>
      match identifier with
      | Some identifier =>
          if alreadyReported (getFilePath sourceFile) (getText identifier) st then Ok st
          else Ok (classify sourceFile type identifier st)
      | None => Ok st
      end).

Definition incrementProcessed (st : State) : State :=
  let c := counters st in
  MkState (issues st)
          (MkCounters (counters_files c) (counters_exports c) (counters_types c)
                      (counters_duplicates c) (counters_members c)
                      (S (counters_processed c)))
          (terminal st).

(** [new Set([...exportDeclarations.values()].flat())]: the distinct
    declaration nodes. *)
Definition uniqueExportedSymbols (sourceFile : SourceFile) : gset nat :=
  list_to_set (nodeId <$> concat (snd <$> getExportedDeclarations sourceFile)).

(** Lines 76-155: the callback of [usedNonEntryFiles.forEach]. *)
Definition processSourceFile (sourceFile : SourceFile) (st : State) : result State :=
  let exportDeclarations := getExportedDeclarations sourceFile in
  let st := reportDuplicates sourceFile st in
  if include_exports (include configuration)
     || include_types (include configuration)
     || include_members (include configuration)
  then
    if size (uniqueExportedSymbols sourceFile) =? 1 then Ok st
    else
      bind (forEach (fun declarations => forEach (processDeclaration sourceFile) declarations)
                    (snd <$> exportDeclarations) st)
           (fun st => Ok (incrementProcessed st))
  else Ok (incrementProcessed st).

End Pass.

(** [run], from the source files of the two workspaces: [entryFiles]
    and [productionFiles] are [production.getSourceFiles()] before and
    after [resolveSourceFileDependencies()], [projectFiles] is
    [project.getSourceFiles()]. *)
Definition run (entryFiles productionFiles projectFiles : list SourceFile) : result State :=
  let '(usedProductionFiles, unusedProductionFiles) :=
    partitionSourceFiles projectFiles productionFiles in
  let '(_, usedNonEntryFiles) := partitionSourceFiles usedProductionFiles entryFiles in
  let files : gset string := list_to_set (getFilePath <$> unusedProductionFiles) in
  let st :=
    MkState (MkIssues files ∅ ∅ ∅ ∅)
            (MkCounters (size files) 0 0 0 0 (size files))
            [] in
  bind (if include_exports (include configuration)
           || include_types (include configuration)
           || include_members (include configuration)
           || include_duplicates (include configuration)
        then forEach (processSourceFile unusedProductionFiles usedNonEntryFiles)
                     usedNonEntryFiles st
        else Ok st)
       (fun st =>
          Ok (if isShowProgress configuration
              then MkState (issues st) (counters st) (terminal st ++ [ResetLines])
              else st)).

End Run.

(** ** The specification's wording, to compare the code with *)

(** The four declaration shapes of the identifier resolution. *)
Inductive Shape : Type := BareName | NamedDeclaration | MemberAccess | OtherShape.

Definition shapeOf (declaration : Node) : Shape :=
  match getKind declaration with
  | Identifier => BareName
  | FunctionDeclaration | ClassDeclaration | TypeAliasDeclaration
  | InterfaceDeclaration | EnumDeclaration => NamedDeclaration
  | PropertyAccessExpression => MemberAccess
  | _ => OtherShape
  end.

(** The representative identifier by the shape-based precedence: the bare
    name itself, the first child identifier of a named declaration, the
    last child identifier of a member access, else the first descendant
    identifier; [None] when there is none to find. *)
Definition representativeIdentifier (declaration : Node) : option Node :=
  match shapeOf declaration with
  | BareName => Some declaration
  | NamedDeclaration => getFirstChildByKind declaration Identifier
  | MemberAccess => getLastChildByKind declaration Identifier
  | OtherShape => getFirstDescendantByKind declaration Identifier
  end.

(** The bindings of a file in detection order: for each export name in
    turn, each declaration it is bound to. *)
Definition bindings (exportDeclarations : list (string * list Node)) : list (nat * string) :=
  concat ((fun entry : string * list Node =>
             (fun declaration => (nodeId declaration, entry.1)) <$> entry.2)
            <$> exportDeclarations).

(** The export names bound to one declaration, in detection order. *)
Definition namesBoundTo (declaration : nat) (exportDeclarations : list (string * list Node))
  : list string :=
  snd <$> filter (fun binding => binding.1 = declaration) (bindings exportDeclarations).

(** ** Auxiliary notions of the statements *)

(** The names of the first group kept for a declaration. *)
Fixpoint namesOfGroup (declaration : nat) (groups : list (nat * list string)) : list string :=
  match groups with
  | [] => []
  | (d, names) :: rest =>
      if decide (d = declaration) then names else namesOfGroup declaration rest
  end.

Definition addBinding (groups : list (nat * list string)) (binding : nat * string)
  : list (nat * list string) :=
  addName binding.1 binding.2 groups.

(** What a state and a later one share outside category [t]: the maps and
    counters of the other categories, and [processed]. *)
Definition sameOutside (t : IssueType) (st st' : State) : Prop :=
  (∀ other, t ≠ other →
     issuesOf other (issues st') = issuesOf other (issues st)
     ∧ counterOf other (counters st') = counterOf other (counters st))
  ∧ counters_processed (counters st') = counters_processed (counters st).

(** Whether the file callback returns at line 92: the classification is
    asked for and the file has exactly one distinct exported declaration. *)
Definition skipsClassification (configuration : Configuration) (sourceFile : SourceFile)
  : bool :=
  (include_exports (include configuration)
   || include_types (include configuration)
   || include_members (include configuration))
  && (size (uniqueExportedSymbols sourceFile) =? 1).

(** ** Notions for the run as a whole *)

(** The nodes below a node, in pre-order. *)
Fixpoint descendants (n : Node) : list Node :=
  let 'MkNode _ _ _ cs := n in
  (fix below (l : list Node) : list Node :=
     match l with
     | [] => []
     | c :: rest => c :: descendants c ++ below rest
     end) cs.

(** The partitions [run] works on, and the state it starts from. *)
Definition unusedOf (productionFiles projectFiles : list SourceFile) : list SourceFile :=
  (partitionSourceFiles projectFiles productionFiles).2.

Definition usedNonEntryOf (entryFiles productionFiles projectFiles : list SourceFile)
  : list SourceFile :=
  (partitionSourceFiles (partitionSourceFiles projectFiles productionFiles).1 entryFiles).2.

Definition startOf (unusedProductionFiles : list SourceFile) : State :=
  let files : gset string := list_to_set (getFilePath <$> unusedProductionFiles) in
  MkState (MkIssues files ∅ ∅ ∅ ∅) (MkCounters (size files) 0 0 0 0 (size files)) [].

(** The (file key, symbol) pairs under which one category's map reads
    an issue, each listed once. *)
Definition storedKeys (m : IssueMap) (keys : list (string * string)) : Prop :=
  NoDup keys ∧ ∀ file text, (file, text) ∈ keys ↔ is_Some (lookupIssue m file text).

(** The [counter] shown by each render, oldest first. *)
Definition renderedCounters (events : list TerminalEvent) : list nat :=
  omap (fun event =>
          match event with
          | Update (ProgressLine _ counter _ :: _) => Some counter
          | _ => None
          end) events.

(** The issues counted so far, all categories together. *)
Definition issueCount (c : Counters) : nat :=
  counters_exports c + counters_types c + counters_duplicates c + counters_members c.

Definition isUpdate (event : TerminalEvent) : Prop :=
  match event with
  | Update _ => True
  | ResetLines => False
  end.

Section Steps.

Context (oracle : ParseOracle) (configuration : Configuration).
Context (unusedProductionFiles usedNonEntryFiles : list SourceFile).

(** The decision of lines 130-149 on its own: the category and the issue
    that [classify] adds, or [None] when it adds nothing. *)
Definition verdict (sourceFile : SourceFile) (type : option string) (identifier : Node)
  : option (IssueType * Issue) :=
  let file := getFilePath sourceFile in
  let identifierText := getText identifier in
  let refs := findReferences oracle identifier in
  if length refs =? 0 then Some (exports, MkIssue file identifierText None None)
  else if negb (isReferencedOnlyBySelf refs file) then None
  else if 0 <? length (findReferencingNamespaceNodes oracle sourceFile) then
    Some (members, MkIssue file identifierText None None)
  else
    match type with
    | Some t => Some (types, MkIssue file identifierText (Some t) None)
    | None => Some (exports, MkIssue file identifierText None None)
    end.

(** The three flags that open the classification of a file (line 90). *)
Definition classifies : bool :=
  include_exports (include configuration)
  || include_types (include configuration)
  || include_members (include configuration).

(** What the callback of one file may add in state [st]: the issue of a
    group of duplicate names, or the verdict on one of its declarations
    that reaches the reference query in [st]. *)
Definition emitted (sourceFile : SourceFile) (st : State) (category : IssueType)
           (issue : Issue) : Prop :=
  (category = duplicates
   ∧ include_duplicates (include configuration) = true
   ∧ ∃ names, names ∈ findDuplicateExportedNames sourceFile
              ∧ issue = MkIssue (getFilePath sourceFile) (join "," names) None (Some names))
  ∨ (classifies = true
     ∧ ∃ declaration identifier,
         declaration ∈ concat (snd <$> getExportedDeclarations sourceFile)
         ∧ categoryFiltered configuration (getType oracle declaration) = false
         ∧ publicTagged oracle configuration declaration = false
         ∧ resolveIdentifier declaration = Ok (Some identifier)
         ∧ alreadyReported configuration (getFilePath sourceFile) (getText identifier) st
           = false
         ∧ verdict sourceFile (getType oracle declaration) identifier
           = Some (category, issue)).

(** The verdict on a declaration that the filters let through and that
    has an identifier, whatever the guard of lines 126-128 says. *)
Definition verdictOf (sourceFile : SourceFile) (declaration : Node)
  : option (IssueType * Issue) :=
  if categoryFiltered configuration (getType oracle declaration) then None
  else if publicTagged oracle configuration declaration then None
  else match resolveIdentifier declaration with
       | Ok (Some identifier) => verdict sourceFile (getType oracle declaration) identifier
       | _ => None
       end.

(** The verdicts on the declarations of a file in the order of the two
    loops, none for a file that is not classified or is left at line 92. *)
Definition verdictsOf (sourceFile : SourceFile) : list (IssueType * Issue) :=
  if classifies && negb (size (uniqueExportedSymbols sourceFile) =? 1)
  then omap (verdictOf sourceFile) (concat (snd <$> getExportedDeclarations sourceFile))
  else [].

(** How many of the verdicts are for one category. *)
Definition verdictCount (category : IssueType) (verdicts : list (IssueType * Issue)) : nat :=
  length (filter (fun v => v.1 = category) verdicts).

(** No category has a per-file object under the absolute path of one of
    the files: what the guard reads there is [undefined]. *)
Definition unreadKeys (files : list SourceFile) (st : State) : Prop :=
  ∀ sourceFile category,
    sourceFile ∈ files → issuesOf category (issues st) !! getFilePath sourceFile = None.

(** What the files of the pass may add in state [st]. *)
Definition allowed (st : State) (category : IssueType) (issue : Issue) : Prop :=
  ∃ sourceFile, sourceFile ∈ usedNonEntryFiles ∧ emitted sourceFile st category issue.

(** States that follow one another by calls of [addIssue] allowed by [P]
    in the state they are made in, and by increments of [processed]. *)
Inductive reaches (P : State → IssueType → Issue → Prop) : State → State → Prop :=
| reaches_refl st : reaches P st st
| reaches_emit st st' category issue :
    reaches P st st' →
    P st' category issue →
    reaches P st
            (addIssue oracle configuration unusedProductionFiles usedNonEntryFiles
                      category issue st')
| reaches_done st st' :
    reaches P st st' → reaches P st (incrementProcessed st').

End Steps.

(** ** Concrete collaborators for the examples *)

Module Fixture.

(** The segments of a path between its slashes, left to right. *)
Fixpoint splitPath (path : string) : list string :=
  match path with
  | EmptyString => [EmptyString]
  | String c rest =>
      if Ascii.eqb c "/"%char then EmptyString :: splitPath rest
      else match splitPath rest with
           | [] => [String c EmptyString]
           | segment :: segments => String c segment :: segments
           end
  end.

Definition segmentsOf (path : string) : list string :=
  List.filter (fun segment => negb (String.eqb segment EmptyString)) (splitPath path).

Fixpoint dropCommonPrefix (from to : list string) : list string * list string :=
  match from, to with
  | f :: from', t :: to' =>
      if String.eqb f t then dropCommonPrefix from' to' else (from, to)
  | _, _ => (from, to)
  end.

(** [path.relative(from, to)] of Node.js on normalized absolute POSIX
    paths: one [..] per segment left of [from] after the common prefix,
    then what is left of [to]. *)
Definition posixRelative (from to : string) : string :=
  let '(up, down) := dropCommonPrefix (segmentsOf from) (segmentsOf to) in
  join "/" (((fun _ => "..") <$> up) ++ down).

(** The three type-level kinds answer their keyword, the others nothing. *)
Definition typeOfKind (declaration : Node) : option string :=
  match getKind declaration with
  | TypeAliasDeclaration => Some "type"
  | InterfaceDeclaration => Some "interface"
  | EnumDeclaration => Some "enum"
  | _ => None
  end.

(** An oracle from a table of references per identifier node and a
    table of namespace nodes per file path. *)
Definition oracleOf (references : list (nat * list (list string)))
           (namespaces : list (string * list Node)) : ParseOracle :=
  MkParseOracle
    typeOfKind
    (fun _ => false)
    (fun identifier =>
       default [] (snd <$> List.find (fun e => fst e =? nodeId identifier) references))
    (fun sourceFile =>
       default [] (snd <$> List.find (fun e => String.eqb (fst e) (getFilePath sourceFile))
                                     namespaces))
    posixRelative.

Definition allIncluded : Include := MkInclude true true true true true.

Definition quiet : Configuration := MkConfiguration "/proj" false allIncluded false.
Definition verbose : Configuration := MkConfiguration "/proj" true allIncluded false.

Definition entry : SourceFile := MkSourceFile "/proj/a.ts" [].

(** [export interface Foo {}] merged with [export const Foo = 1]. *)
Definition fooIdentifier1 : Node := MkNode 2 Identifier "Foo" [].
Definition fooInterface : Node :=
  MkNode 1 InterfaceDeclaration "export interface Foo {}" [fooIdentifier1].
Definition fooIdentifier2 : Node := MkNode 4 Identifier "Foo" [].
Definition fooConst : Node := MkNode 3 VariableDeclaration "Foo = 1" [fooIdentifier2].

Definition merged : SourceFile :=
  MkSourceFile "/proj/b.ts" [("Foo", [fooInterface; fooConst])].

Definition mergedOracle : ParseOracle :=
  oracleOf [(2, [["/proj/b.ts"]]); (4, [["/proj/b.ts"]])] [].

Definition initial : State :=
  MkState (MkIssues ∅ ∅ ∅ ∅ ∅) (MkCounters 0 0 0 0 0 0) [].

(** A file whose only export is [export function bar() {}], referenced
    nowhere. *)
Definition barIdentifier : Node := MkNode 11 Identifier "bar" [].
Definition barFunction : Node :=
  MkNode 10 FunctionDeclaration "export function bar() {}" [barIdentifier].

Definition single : SourceFile := MkSourceFile "/proj/d.ts" [("bar", [barFunction])].

Definition singleOracle : ParseOracle := oracleOf [(11, [])] [].

(** A file with [export function foo() {}], referenced in the file
    only, and [export function baz() {}], imported by the entry file;
    three more files that nothing reaches. *)
Definition fooIdentifier : Node := MkNode 21 Identifier "foo" [].
Definition fooFunction : Node :=
  MkNode 20 FunctionDeclaration "export function foo() {}" [fooIdentifier].
Definition bazIdentifier : Node := MkNode 23 Identifier "baz" [].
Definition bazFunction : Node :=
  MkNode 22 FunctionDeclaration "export function baz() {}" [bazIdentifier].

Definition library : SourceFile :=
  MkSourceFile "/proj/lib.ts" [("foo", [fooFunction]); ("baz", [bazFunction])].

Definition unreached : list SourceFile :=
  [MkSourceFile "/proj/u1.ts" []; MkSourceFile "/proj/u2.ts" [];
   MkSourceFile "/proj/u3.ts" []].

Definition libraryOracle : ParseOracle :=
  oracleOf [(21, [["/proj/lib.ts"]]); (23, [["/proj/lib.ts"; "/proj/a.ts"]])] [].

(** A file with [export type T = number] and [export const v = 1],
    each referenced in the file only, that another file imports as a
    namespace object ([import * as ns from './ns']). *)
Definition tIdentifier : Node := MkNode 31 Identifier "T" [].
Definition tAlias : Node :=
  MkNode 30 TypeAliasDeclaration "export type T = number" [tIdentifier].
Definition vIdentifier : Node := MkNode 33 Identifier "v" [].
Definition vConst : Node := MkNode 32 VariableDeclaration "v = 1" [vIdentifier].

Definition namespaced : SourceFile :=
  MkSourceFile "/proj/ns.ts" [("T", [tAlias]); ("v", [vConst])].

Definition namespacedOracle : ParseOracle :=
  oracleOf [(31, [["/proj/ns.ts"]]); (33, [["/proj/ns.ts"]])]
           [("/proj/ns.ts", [MkNode 40 PropertyAccessExpression "ns.v" []])].

(** A file with [const one = 1; export { one as a, one as b }] and
    [export const c = 2]. *)
Definition oneIdentifier : Node := MkNode 51 Identifier "one" [].
Definition oneConst : Node := MkNode 50 VariableDeclaration "one = 1" [oneIdentifier].
Definition cIdentifier : Node := MkNode 53 Identifier "c" [].
Definition cConst : Node := MkNode 52 VariableDeclaration "c = 2" [cIdentifier].

Definition aliased : SourceFile :=
  MkSourceFile "/proj/dup.ts" [("a", [oneConst]); ("b", [oneConst]); ("c", [cConst])].

Definition aliasedOracle : ParseOracle :=
  oracleOf [(51, [["/proj/dup.ts"; "/proj/a.ts"]]); (53, [["/proj/dup.ts"; "/proj/a.ts"]])] [].

Definition withoutDuplicates : Configuration :=
  MkConfiguration "/proj" false (MkInclude true true true true false) false.

Definition filesOnly : Configuration :=
  MkConfiguration "/proj" true (MkInclude true false false false false) false.

(** A file with [export default function () {}], a function declaration
    without a name, and [export default 42]-like literal, an expression
    without any identifier. *)
Definition anonymousFunction : Node :=
  MkNode 60 FunctionDeclaration "export default function () {}"
         [MkNode 61 (OtherKind 0) "{}" []].
Definition literal : Node := MkNode 62 (OtherKind 1) "42" [].

Definition anonymous : SourceFile :=
  MkSourceFile "/proj/anon.ts" [("default", [anonymousFunction]); ("c", [cConst])].

(** A file with [export const __proto__ = 1] and [export const foo = 2],
    each referenced in the file only. *)
Definition protoIdentifier : Node := MkNode 71 Identifier "__proto__" [].
Definition protoConst : Node :=
  MkNode 70 VariableDeclaration "__proto__ = 1" [protoIdentifier].
Definition fooIdentifier3 : Node := MkNode 73 Identifier "foo" [].
Definition fooConst3 : Node := MkNode 72 VariableDeclaration "foo = 2" [fooIdentifier3].

Definition prototyped : SourceFile :=
  MkSourceFile "/proj/p.ts" [("__proto__", [protoConst]); ("foo", [fooConst3])].

Definition prototypedOracle : ParseOracle :=
  oracleOf [(71, [["/proj/p.ts"]]); (73, [["/proj/p.ts"]])] [].

(** The same answers with every declaration carrying a public tag. *)
Definition tagged (o : ParseOracle) : ParseOracle :=
  MkParseOracle (getType o) (fun _ => true) (findReferences o)
                (findReferencingNamespaceNodes o) (relative o).

Definition withoutTypes : Configuration :=
  MkConfiguration "/proj" false (MkInclude true true false false true) false.

Definition duplicatesOnly : Configuration :=
  MkConfiguration "/proj" false (MkInclude true false false false true) false.

Definition honouringTags : Configuration :=
  MkConfiguration "/proj" false allIncluded true.

End Fixture.

(** * Properties *)

(** ** Reading and writing one category *)

Lemma issuesOf_set_eq t m i : issuesOf t (setIssuesOf t m i) = m.
Proof. by destruct t. Qed.

Lemma issuesOf_set_ne t t' m i : t ≠ t' → issuesOf t' (setIssuesOf t m i) = issuesOf t' i.
Proof. by destruct t, t'. Qed.

Lemma files_set t m i : issues_files (setIssuesOf t m i) = issues_files i.
Proof. by destruct t. Qed.

Lemma counterOf_set_eq t n c : counterOf t (setCounterOf t n c) = n.
Proof. by destruct t. Qed.

Lemma counterOf_set_ne t t' n c : t ≠ t' → counterOf t' (setCounterOf t n c) = counterOf t' c.
Proof. by destruct t, t'. Qed.

Lemma processed_set t n c : counters_processed (setCounterOf t n c) = counters_processed c.
Proof. by destruct t. Qed.

Lemma counters_files_set t n c : counters_files (setCounterOf t n c) = counters_files c.
Proof. by destruct t. Qed.

(** An issue that is read is truthy. *)
Lemma hasIssue_lookupIssue m file text :
  is_Some (lookupIssue m file text) → hasIssue m file text = true.
Proof.
  unfold hasIssue, lookupIssue, readIssue, truthyRead.
  destruct (m !! file) as [object|]; simpl; [|by intros [? ?]].
  destruct (String.eqb text "__proto__") eqn:Htext.
  - apply String.eqb_eq in Htext. subst text. intros _.
    by rewrite orb_true_r.
  - intros Hown. by rewrite (bool_decide_eq_true_2 _ Hown).
Qed.

Lemma readIssue_writeIssue text issue object text' :
  readIssue text' (writeIssue text issue object)
  = if decide (text = text') then Some issue else readIssue text' object.
Proof.
  unfold readIssue, writeIssue.
  destruct (String.eqb text "__proto__") eqn:Htext;
    destruct (String.eqb text' "__proto__") eqn:Htext'; cbn [ownIssues prototypeIssue];
    case_decide as Heq; try done.
  - apply String.eqb_eq in Htext, Htext'. congruence.
  - subst text'. congruence.
  - subst text'. congruence.
  - subst text'. apply lookup_insert_eq.
  - by apply lookup_insert_ne.
Qed.

(** Writing [issue] under [(key, text)] and reading any key back. *)
Lemma lookupIssue_insert (m : IssueMap) key text issue file text' :
  lookupIssue (storeIssue key text issue m) file text'
  = if decide (key = file ∧ text = text') then Some issue else lookupIssue m file text'.
Proof.
  unfold lookupIssue, storeIssue. destruct (decide (key = file)) as [->|Hkey].
  - rewrite lookup_insert_eq. simpl. rewrite readIssue_writeIssue.
    destruct (decide (text = text')) as [->|Htext].
    + by rewrite decide_True.
    + rewrite decide_False; [|by intros [_ ?]].
      destruct (m !! file); [done|]. simpl. unfold readIssue. simpl.
      by destruct (String.eqb text' "__proto__").
  - rewrite lookup_insert_ne; [|done]. rewrite decide_False; [done|by intros [? _]].
Qed.

(** ** Groups of export names *)

Lemma groupExportedNames_bindings exportDeclarations :
  groupExportedNames exportDeclarations = foldl addBinding [] (bindings exportDeclarations).
Proof.
  unfold groupExportedNames. generalize (@nil (nat * list string)) as groups.
  induction exportDeclarations as [|entry rest IH]; intros groups; [done|].
  unfold bindings. simpl. rewrite foldl_app, foldl_fmap. apply IH.
Qed.

Lemma namesOfGroup_addName d d' name groups :
  namesOfGroup d (addName d' name groups)
  = namesOfGroup d groups ++ (if decide (d' = d) then [name] else []).
Proof.
  induction groups as [|[k names] rest IH]; simpl.
  - by destruct (decide (d' = d)).
  - destruct (decide (k = d')) as [->|Hk]; simpl.
    + destruct (decide (d' = d)); [done|]. by rewrite app_nil_r.
    + destruct (decide (k = d)) as [->|Hd]; [|done].
      rewrite decide_False by done. by rewrite app_nil_r.
Qed.

Lemma keys_addName d name groups :
  (addName d name groups).*1 = if decide (d ∈ groups.*1) then groups.*1 else groups.*1 ++ [d].
Proof.
  induction groups as [|[k names] rest IH]; [done|].
  cbn [addName fmap list_fmap fst].
  destruct (decide (k = d)) as [->|Hk].
  - cbn [fmap list_fmap fst]. rewrite decide_True; [done|]. apply list_elem_of_here.
  - cbn [fmap list_fmap fst]. rewrite IH. destruct (decide (d ∈ rest.*1)) as [Hin|Hout].
    + rewrite decide_True; [done|]. by apply list_elem_of_further.
    + rewrite decide_False; [done|].
      intros [?|?]%elem_of_cons; [by apply Hk | by apply Hout].
Qed.

Lemma NoDup_keys_addName d name groups :
  NoDup groups.*1 → NoDup (addName d name groups).*1.
Proof.
  intros Hnodup. rewrite keys_addName. destruct (decide (d ∈ groups.*1)); [done|].
  apply NoDup_app. split; [done|]. split; [|apply NoDup_singleton].
  intros k Hk ->%list_elem_of_singleton. done.
Qed.

Lemma namesOfGroup_elem d names groups :
  NoDup groups.*1 → (d, names) ∈ groups → namesOfGroup d groups = names.
Proof.
  induction groups as [|[k knames] rest IH]; simpl; intros Hnodup Hin.
  - by apply elem_of_nil in Hin.
  - apply NoDup_cons in Hnodup as [Hk Hrest].
    apply elem_of_cons in Hin as [[= <- <-]|Hin]; [by rewrite decide_True|].
    rewrite decide_False; [by apply IH|].
    intros ->. apply Hk. apply list_elem_of_fmap. by exists (d, names).
Qed.

(** The groups after a sequence of bindings. *)
Lemma foldl_addBinding groups bs :
  NoDup groups.*1 →
  let groups' := foldl addBinding groups bs in
  NoDup groups'.*1
  ∧ (∀ d, namesOfGroup d groups'
          = namesOfGroup d groups ++ (snd <$> filter (fun b => b.1 = d) bs))
  ∧ (∀ d, d ∈ groups'.*1 ↔ d ∈ groups.*1 ∨ d ∈ bs.*1).
Proof.
  revert groups. induction bs as [|[k name] bs IH]; intros groups Hnodup; simpl.
  - split; [done|]. split.
    + intros d. by rewrite app_nil_r.
    + intros d. split; [by left|]. intros [?|Hd]; [done|]. by apply elem_of_nil in Hd.
  - destruct (IH (addBinding groups (k, name))) as (Hn & Hnames & Hkeys).
    { by apply NoDup_keys_addName. }
    split; [done|]. split.
    + intros d. rewrite Hnames. unfold addBinding at 1. simpl.
      rewrite namesOfGroup_addName, <- app_assoc. f_equal.
      rewrite filter_cons. simpl. by destruct (decide (k = d)).
    + intros d. rewrite Hkeys. unfold addBinding. simpl. rewrite keys_addName.
      destruct (decide (k ∈ groups.*1)) as [Hin|Hout].
      * rewrite elem_of_cons. split; [intros [?|?]; auto|].
        intros [?|[->|?]]; auto.
      * rewrite elem_of_app, list_elem_of_singleton, elem_of_cons.
        split; [intros [[?|?]|?]; auto | intros [?|[?|?]]; auto].
Qed.

Lemma fmap_snd_by_key {A B} (f : A → B) (l : list (A * B)) :
  (∀ entry, entry ∈ l → entry.2 = f entry.1) → l.*2 = f <$> l.*1.
Proof.
  induction l as [|entry l IH]; intros Hall; simpl; [done|].
  rewrite (Hall entry) by apply list_elem_of_here.
  f_equal. apply IH. intros e He. apply Hall. by apply list_elem_of_further.
Qed.

Lemma filter_fmap_comm {A B} (f : A → B) (P : B → Prop) `{∀ y, Decision (P y)} (l : list A) :
  filter P (f <$> l) = f <$> filter (fun x => P (f x)) l.
Proof.
  induction l as [|x l IH]; [done|].
  rewrite fmap_cons, !filter_cons. destruct (decide (P (f x))); [|done].
  by rewrite fmap_cons, IH.
Qed.

(** The groups [findDuplicateExportedNames] returns are the names bound
    to the declarations that two or more names are bound to, one group per
    such declaration. *)
Lemma findDuplicateExportedNames_groups sourceFile :
  let exportDeclarations := getExportedDeclarations sourceFile in
  ∃ declarations : list nat,
    NoDup declarations
    ∧ (∀ d, d ∈ declarations ↔ 2 ≤ length (namesBoundTo d exportDeclarations))
    ∧ findDuplicateExportedNames sourceFile
      = (fun d => namesBoundTo d exportDeclarations) <$> declarations.
Proof.
  intros exportDeclarations. unfold findDuplicateExportedNames. fold exportDeclarations.
  rewrite groupExportedNames_bindings.
  destruct (foldl_addBinding [] (bindings exportDeclarations)) as (Hnodup & Hnames & Hkeys);
    [apply NoDup_nil_2|].
  set (groups := foldl addBinding [] (bindings exportDeclarations)) in *.
  exists (filter (fun d => 2 ≤ length (namesBoundTo d exportDeclarations)) groups.*1).
  split; [by apply NoDup_filter|]. split.
  - intros d. rewrite list_elem_of_filter. split; [by intros [? _]|].
    intros Hlen. split; [done|]. apply Hkeys. right.
    unfold namesBoundTo in Hlen.
    destruct (filter (λ b, b.1 = d) (bindings exportDeclarations)) as [|b bs] eqn:Hf;
      [simpl in Hlen; lia|].
    assert (b ∈ filter (λ b, b.1 = d) (bindings exportDeclarations)) as Hb
      by (rewrite Hf; apply list_elem_of_here).
    apply list_elem_of_filter in Hb as [<- Hb]. apply list_elem_of_fmap. by exists b.
  - rewrite (fmap_snd_by_key (fun d => namesBoundTo d exportDeclarations) groups).
    + apply (filter_fmap_comm (fun d => namesBoundTo d exportDeclarations)
                              (fun names => 2 ≤ length names)
                              (H := fun names => decide (2 ≤ length names))).
    + intros [d names] Hin. simpl. rewrite <- (namesOfGroup_elem d names groups) by done.
      by rewrite Hnames.
Qed.

Section Closures.

Context (oracle : ParseOracle) (configuration : Configuration).
Context (unusedProductionFiles usedNonEntryFiles : list SourceFile).

Abbreviation updateProcessingOutput' :=
  (updateProcessingOutput oracle configuration unusedProductionFiles usedNonEntryFiles).
Abbreviation addIssue' := (addIssue oracle configuration unusedProductionFiles usedNonEntryFiles).
Abbreviation keyOf issue := (relative oracle (cwd configuration) (filePath issue)).

(** Rendering reads the state and writes the terminal only. *)
Lemma updateProcessingOutput_issues item st :
  issues (updateProcessingOutput' item st) = issues st.
Proof. unfold updateProcessingOutput. by destruct (isShowProgress _). Qed.

Lemma updateProcessingOutput_counters item st :
  counters (updateProcessingOutput' item st) = counters st.
Proof. unfold updateProcessingOutput. by destruct (isShowProgress _). Qed.

Lemma addIssue_issues t issue st :
  issues (addIssue' t issue st)
  = setIssuesOf t
      (storeIssue (keyOf issue) (symbol issue) issue (issuesOf t (issues st)))
      (issues st).
Proof.
  unfold addIssue. destruct (isShowProgress _); [|done].
  by rewrite updateProcessingOutput_issues.
Qed.

Lemma addIssue_counters t issue st :
  counters (addIssue' t issue st)
  = setCounterOf t (S (counterOf t (counters st))) (counters st).
Proof.
  unfold addIssue. destruct (isShowProgress _); [|done].
  by rewrite updateProcessingOutput_counters.
Qed.

(** What a call leaves alone: the other categories, the set of unused
    files, and the two counters that are not per category. *)
Lemma addIssue_frame t issue st t' :
  t ≠ t' →
  issuesOf t' (issues (addIssue' t issue st)) = issuesOf t' (issues st)
  ∧ counterOf t' (counters (addIssue' t issue st)) = counterOf t' (counters st).
Proof.
  intros Hne. rewrite addIssue_issues, addIssue_counters.
  by rewrite issuesOf_set_ne, counterOf_set_ne.
Qed.

Lemma addIssue_processed t issue st :
  counters_processed (counters (addIssue' t issue st)) = counters_processed (counters st).
Proof. by rewrite addIssue_counters, processed_set. Qed.

Lemma addIssue_lookup t issue st file text :
  lookupIssue (issuesOf t (issues (addIssue' t issue st))) file text
  = if decide (keyOf issue = file ∧ symbol issue = text) then Some issue
    else lookupIssue (issuesOf t (issues st)) file text.
Proof. by rewrite addIssue_issues, issuesOf_set_eq, lookupIssue_insert. Qed.

(** What a call [addIssue(category, issue)] does, as the keys read
    afterwards: [issues[category][key][issue.symbol]], with [key] the
    path of [issue.filePath] relative to [cwd], reads the issue whatever
    it read before, and the counter of the category is one more; every
    other key of the category reads as before, and every other
    category's map and counter, the set of unused files and the [files]
    and [processed] counters are as before. *)
Lemma addIssue_reads_and_counts (category : IssueType) (issue : Issue) (st : State) :
  let st' := addIssue' category issue st in
  lookupIssue (issuesOf category (issues st')) (keyOf issue) (symbol issue) = Some issue
  ∧ counterOf category (counters st') = S (counterOf category (counters st))
  ∧ (∀ file text,
        ¬ (keyOf issue = file ∧ symbol issue = text) →
        lookupIssue (issuesOf category (issues st')) file text
        = lookupIssue (issuesOf category (issues st)) file text)
  ∧ (∀ other,
        category ≠ other →
        issuesOf other (issues st') = issuesOf other (issues st)
        ∧ counterOf other (counters st') = counterOf other (counters st))
  ∧ issues_files (issues st') = issues_files (issues st)
  ∧ counters_files (counters st') = counters_files (counters st)
  ∧ counters_processed (counters st') = counters_processed (counters st).
Proof.
  intros st'. subst st'. repeat split.
  - rewrite addIssue_lookup. by rewrite decide_True.
  - by rewrite addIssue_counters, counterOf_set_eq.
  - intros file text Hother. rewrite addIssue_lookup. by rewrite decide_False.
  - by apply addIssue_frame.
  - by apply addIssue_frame.
  - by rewrite addIssue_issues, files_set.
  - by rewrite addIssue_counters, counters_files_set.
  - apply addIssue_processed.
Qed.

(** The own property that a call leaves under its key: the issue, unless
    the symbol is [__proto__], which stores no property: what was there
    stays, and the issue becomes the prototype of the per-file object. *)
Lemma addIssue_own_key (category : IssueType) (issue : Issue) (st : State) :
  let before := issuesOf category (issues st) in
  let after := issuesOf category (issues (addIssue' category issue st)) in
  ownIssue after (keyOf issue) (symbol issue)
  = (if String.eqb (symbol issue) "__proto__"
     then ownIssue before (keyOf issue) (symbol issue)
     else Some issue)
  ∧ (String.eqb (symbol issue) "__proto__" = true →
     prototypeIssue <$> after !! keyOf issue = Some (Some issue)).
Proof.
  intros before after. subst before after.
  rewrite addIssue_issues, issuesOf_set_eq. unfold ownIssue, storeIssue, writeIssue.
  rewrite lookup_insert_eq. simpl.
  destruct (String.eqb (symbol issue) "__proto__"); simpl.
  - split; [|done]. by destruct (issuesOf category (issues st) !! keyOf issue).
  - split; [|done]. by rewrite lookup_insert_eq.
Qed.

(** ** Classifying one declaration *)

Abbreviation processDeclaration' :=
  (processDeclaration oracle configuration unusedProductionFiles usedNonEntryFiles).
Abbreviation classify' :=
  (classify oracle configuration unusedProductionFiles usedNonEntryFiles).

(** The set of referencing files is the declaring file alone exactly
    when there is a reference and every reference is in that file. *)
Lemma isReferencedOnlyBySelf_spec (refs : list (list string)) (file : string) :
  isReferencedOnlyBySelf refs file = true
  ↔ concat refs ≠ [] ∧ Forall (fun f => f = file) (concat refs).
Proof.
  unfold isReferencedOnlyBySelf. set (l := concat refs). split.
  - destruct (elements (list_to_set l : gset string)) as [|only [|]] eqn:Hel; try done.
    intros ->%bool_decide_eq_true.
    assert (Hin : ∀ f, f ∈ l → f = file).
    { intros f Hf. assert (f ∈ elements (list_to_set l : gset string)) as Hfe.
      { apply elem_of_elements, elem_of_list_to_set, Hf. }
      rewrite Hel in Hfe. by apply list_elem_of_singleton in Hfe. }
    split.
    + intros Hnil. rewrite Hnil in Hel. by rewrite list_to_set_nil, elements_empty in Hel.
    + by apply Forall_forall.
  - intros [Hne Hall]. rewrite Forall_forall in Hall.
    assert ((list_to_set l : gset string) = {[file]}) as ->.
    { apply set_eq. intros f. rewrite elem_of_list_to_set, elem_of_singleton. split.
      - apply Hall.
      - intros ->. destruct l as [|g l']; [done|].
        rewrite (Hall g) by apply list_elem_of_here. apply list_elem_of_here. }
    rewrite elements_singleton. by apply bool_decide_eq_true.
Qed.

(** A file that is not the declaring one among the references. *)
Lemma isReferencedOnlyBySelf_outside (refs : list (list string)) (file other : string) :
  other ∈ concat refs → other ≠ file → isReferencedOnlyBySelf refs file = false.
Proof.
  intros Hin Hne. apply not_true_is_false. intros [_ Hall]%isReferencedOnlyBySelf_spec.
  rewrite Forall_forall in Hall. by apply Hne, Hall.
Qed.

(** A declaration that passes the two filters, has [identifier] as its
    representative and is not held back by the guard is classified. *)
Lemma processDeclaration_classify sourceFile declaration identifier st :
  categoryFiltered configuration (getType oracle declaration) = false →
  publicTagged oracle configuration declaration = false →
  resolveIdentifier declaration = Ok (Some identifier) →
  alreadyReported configuration (getFilePath sourceFile) (getText identifier) st = false →
  processDeclaration' sourceFile declaration st
  = Ok (classify' sourceFile (getType oracle declaration) identifier st).
Proof.
  intros Hcat Hpub Hres Hguard. unfold processDeclaration.
  rewrite Hcat, Hpub, Hres. simpl. by rewrite Hguard.
Qed.

(** C4. A declaration that reaches the reference query, whose
    identifier has references that all lie in the declaring file, in a
    file that some node references as a namespace object, is reported
    under [members], whether [getType] calls it type-level or not: the
    issue is stored under [members], and [types] and [exports] are as
    before. *)
Theorem C4_namespace_member_before_type sourceFile declaration identifier st :
  categoryFiltered configuration (getType oracle declaration) = false →
  publicTagged oracle configuration declaration = false →
  resolveIdentifier declaration = Ok (Some identifier) →
  alreadyReported configuration (getFilePath sourceFile) (getText identifier) st = false →
  concat (findReferences oracle identifier) ≠ [] →
  Forall (fun f => f = getFilePath sourceFile) (concat (findReferences oracle identifier)) →
  findReferencingNamespaceNodes oracle sourceFile ≠ [] →
  let issue := MkIssue (getFilePath sourceFile) (getText identifier) None None in
  processDeclaration' sourceFile declaration st = Ok (addIssue' members issue st)
  ∧ lookupIssue (issues_members (issues (addIssue' members issue st)))
                (keyOf issue) (getText identifier) = Some issue
  ∧ issues_types (issues (addIssue' members issue st)) = issues_types (issues st)
  ∧ issues_exports (issues (addIssue' members issue st)) = issues_exports (issues st).
Proof.
  intros Hcat Hpub Hres Hguard Hne Hall Hns issue.
  rewrite (processDeclaration_classify _ _ identifier) by done.
  assert (isReferencedOnlyBySelf (findReferences oracle identifier)
                                 (getFilePath sourceFile) = true) as Hself
    by by apply isReferencedOnlyBySelf_spec.
  split; [|split; [|split]].
  - unfold classify. rewrite Hself.
    destruct (findReferences oracle identifier) as [|r refs]; [done|].
    destruct (findReferencingNamespaceNodes oracle sourceFile); [done|]. done.
  - pose proof (addIssue_lookup members issue st (keyOf issue) (getText identifier)) as Hl.
    simpl in Hl. by rewrite decide_True in Hl.
  - by apply (addIssue_frame members issue st types).
  - by apply (addIssue_frame members issue st exports).
Qed.

(** C5. A declaration that reaches the reference query (it passes the
    two filters, has [identifier] as its representative and is not held
    back by the guard):
    - when the query answers with no referenced symbol at all
      ([refs.length === 0]), is classified [exports]: the issue of its
      file and identifier text, without [symbolType], is what the key
      reads under [exports] afterwards, the [exports] counter is one
      more, and [types] and [members] are as before;
    - when it has references that all lie in the declaring file and
      there is no namespace node for the file, is classified [types] if
      [getType] gives a signature, which the stored issue carries as
      [symbolType], with the [types] counter one more and [exports] and
      [members] as before; and [exports] as in the first case if
      [getType] gives none;
    - when a reference lies in another file, is not reported: the state
      is as before;
    - when the query answers with referenced symbols that list no
      reference at all, is not reported either. *)
Theorem C5_reference_cases sourceFile declaration identifier st :
  categoryFiltered configuration (getType oracle declaration) = false →
  publicTagged oracle configuration declaration = false →
  resolveIdentifier declaration = Ok (Some identifier) →
  alreadyReported configuration (getFilePath sourceFile) (getText identifier) st = false →
  let file := getFilePath sourceFile in
  let text := getText identifier in
  let key := relative oracle (cwd configuration) file in
  let refs := findReferences oracle identifier in
  let asExport := MkIssue file text None None in
  (refs = [] →
   ∃ st',
     processDeclaration' sourceFile declaration st = Ok st'
     ∧ st' = addIssue' exports asExport st
     ∧ lookupIssue (issues_exports (issues st')) key text = Some asExport
     ∧ counters_exports (counters st') = S (counters_exports (counters st))
     ∧ (∀ other, other ≠ exports →
          issuesOf other (issues st') = issuesOf other (issues st)
          ∧ counterOf other (counters st') = counterOf other (counters st)))
  ∧ (concat refs ≠ [] →
     Forall (fun f => f = file) (concat refs) →
     findReferencingNamespaceNodes oracle sourceFile = [] →
     match getType oracle declaration with
     | Some signature =>
         let asType := MkIssue file text (Some signature) None in
         ∃ st',
           processDeclaration' sourceFile declaration st = Ok st'
           ∧ st' = addIssue' types asType st
           ∧ lookupIssue (issues_types (issues st')) key text = Some asType
           ∧ counters_types (counters st') = S (counters_types (counters st))
           ∧ (∀ other, other ≠ types →
                issuesOf other (issues st') = issuesOf other (issues st)
                ∧ counterOf other (counters st') = counterOf other (counters st))
     | None =>
         ∃ st',
           processDeclaration' sourceFile declaration st = Ok st'
           ∧ st' = addIssue' exports asExport st
           ∧ lookupIssue (issues_exports (issues st')) key text = Some asExport
           ∧ counters_exports (counters st') = S (counters_exports (counters st))
           ∧ (∀ other, other ≠ exports →
                issuesOf other (issues st') = issuesOf other (issues st)
                ∧ counterOf other (counters st') = counterOf other (counters st))
     end)
  ∧ ((∃ other, other ∈ concat refs ∧ other ≠ file) →
     processDeclaration' sourceFile declaration st = Ok st)
  ∧ (refs ≠ [] → concat refs = [] →
     processDeclaration' sourceFile declaration st = Ok st).
Proof.
  intros Hcat Hpub Hres Hguard file text key refs asExport.
  rewrite (processDeclaration_classify _ _ identifier) by done.
  assert (∀ category issue,
            keyOf issue = key → symbol issue = text →
            classify' sourceFile (getType oracle declaration) identifier st
            = addIssue' category issue st →
            ∃ st',
              Ok (classify' sourceFile (getType oracle declaration) identifier st) = Ok st'
              ∧ st' = addIssue' category issue st
              ∧ lookupIssue (issuesOf category (issues st')) key text = Some issue
              ∧ counterOf category (counters st') = S (counterOf category (counters st))
              ∧ (∀ other, other ≠ category →
                   issuesOf other (issues st') = issuesOf other (issues st)
                   ∧ counterOf other (counters st') = counterOf other (counters st)))
    as Hreported.
  { intros category issue Hkey Hsymbol ->. eexists. split; [reflexivity|].
    split; [reflexivity|]. split; [|split].
    - rewrite addIssue_lookup. by rewrite decide_True.
    - by rewrite addIssue_counters, counterOf_set_eq.
    - intros other Hother. by apply addIssue_frame. }
  split; [|split; [|split]].
  - intros Hrefs. apply (Hreported exports asExport); [done|done|].
    unfold classify. fold file text refs. by rewrite Hrefs.
  - intros Hne Hall Hns.
    assert (isReferencedOnlyBySelf refs file = true) as Hself
      by by apply isReferencedOnlyBySelf_spec.
    assert ((length refs =? 0) = false) as Hlen
      by (destruct refs as [|r refs']; done).
    destruct (getType oracle declaration) as [signature|] eqn:Htype.
    + apply (Hreported types (MkIssue file text (Some signature) None)); [done|done|].
      unfold classify. fold file text refs. by rewrite Hlen, Hself, Hns.
    + apply (Hreported exports asExport); [done|done|].
      unfold classify. fold file text refs. by rewrite Hlen, Hself, Hns.
  - intros (other & Hin & Hother). unfold classify. fold file text refs.
    rewrite (isReferencedOnlyBySelf_outside refs file other) by done.
    destruct refs as [|r refs']; [|done]. by apply elem_of_nil in Hin.
  - intros Hne Hhollow. unfold classify. fold file text refs.
    assert (isReferencedOnlyBySelf refs file = false) as ->.
    { unfold isReferencedOnlyBySelf. rewrite Hhollow.
      by rewrite list_to_set_nil, elements_empty. }
    destruct refs as [|r refs']; done.
Qed.

(** How [resolveIdentifier] relates to the precedence of the
    specification: it finds the same identifier, and where a named
    declaration or a member access has none it throws. *)
Lemma resolveIdentifier_shape declaration :
  resolveIdentifier declaration
  = match shapeOf declaration, representativeIdentifier declaration with
    | (NamedDeclaration | MemberAccess), None =>
        Throw "A child of the kind Identifier was expected."
    | _, found => Ok found
    end.
Proof.
  destruct declaration as [i k t cs].
  unfold resolveIdentifier, representativeIdentifier, shapeOf,
    getFirstChildByKindOrThrow, getLastChildByKindOrThrow, isKind.
  destruct k; simpl; try done.
  all: match goal with
       | |- context [getFirstChildByKind ?n ?k] => by destruct (getFirstChildByKind n k)
       | |- context [getLastChildByKind ?n ?k] => by destruct (getLastChildByKind n k)
       end.
Qed.

(** When no representative identifier can be found for a declaration,
    a declaration of the fall-back shape (neither bare name, named
    declaration nor member access) is skipped silently, the state
    unchanged; a named declaration or a member access that passes the
    two filters makes the lookup throw. *)
Lemma processDeclaration_without_identifier sourceFile declaration st :
  representativeIdentifier declaration = None →
  (shapeOf declaration = OtherShape →
   processDeclaration' sourceFile declaration st = Ok st)
  ∧ (shapeOf declaration ≠ OtherShape →
     categoryFiltered configuration (getType oracle declaration) = false →
     publicTagged oracle configuration declaration = false →
     ∃ message, processDeclaration' sourceFile declaration st = Throw message).
Proof.
  intros Hnone. pose proof (resolveIdentifier_shape declaration) as Hres.
  rewrite Hnone in Hres. unfold processDeclaration. split.
  - intros Hshape. rewrite Hshape in Hres. rewrite Hres. simpl.
    destruct (categoryFiltered configuration (getType oracle declaration)); [done|].
    by destruct (publicTagged oracle configuration declaration).
  - intros Hshape Hcat Hpub. rewrite Hcat, Hpub.
    destruct (shapeOf declaration) eqn:Hs; try done.
    + unfold representativeIdentifier in Hnone. by rewrite Hs in Hnone.
    + rewrite Hres. by eexists.
    + rewrite Hres. by eexists.
Qed.

(** ** One source file *)

Abbreviation reportDuplicates' :=
  (reportDuplicates oracle configuration unusedProductionFiles usedNonEntryFiles).
Abbreviation processSourceFile' :=
  (processSourceFile oracle configuration unusedProductionFiles usedNonEntryFiles).

Lemma sameOutside_refl t st : sameOutside t st st.
Proof. by split. Qed.

Lemma sameOutside_trans t st1 st2 st3 :
  sameOutside t st1 st2 → sameOutside t st2 st3 → sameOutside t st1 st3.
Proof.
  intros [H12 P12] [H23 P23]. split; [|congruence].
  intros other Hne. destruct (H12 other Hne), (H23 other Hne). split; congruence.
Qed.

Lemma addIssue_sameOutside t issue st : sameOutside t st (addIssue' t issue st).
Proof. split; [intros; by apply addIssue_frame | apply addIssue_processed]. Qed.

Lemma foldl_addIssue_sameOutside {A} t (mk : A → Issue) (xs : list A) st :
  sameOutside t st (foldl (fun st x => addIssue' t (mk x) st) st xs).
Proof.
  revert st. induction xs as [|x xs IH]; intros st; simpl; [apply sameOutside_refl|].
  eapply sameOutside_trans; [apply addIssue_sameOutside | apply IH].
Qed.

Lemma foldl_addIssue_counter {A} t (mk : A → Issue) (xs : list A) st :
  counterOf t (counters (foldl (fun st x => addIssue' t (mk x) st) st xs))
  = counterOf t (counters st) + length xs.
Proof.
  revert st. induction xs as [|x xs IH]; intros st; simpl; [lia|].
  rewrite IH, addIssue_counters, counterOf_set_eq. lia.
Qed.

(** A key that none of the issues is stored under keeps its content. *)
Lemma foldl_addIssue_lookup_miss {A} t (mk : A → Issue) (xs : list A) st file text :
  (∀ x, x ∈ xs → ¬ (keyOf (mk x) = file ∧ symbol (mk x) = text)) →
  lookupIssue (issuesOf t (issues (foldl (fun st x => addIssue' t (mk x) st) st xs)))
              file text
  = lookupIssue (issuesOf t (issues st)) file text.
Proof.
  revert st. induction xs as [|x xs IH]; intros st Hmiss; simpl; [done|].
  rewrite IH.
  - rewrite addIssue_lookup, decide_False; [done|]. apply Hmiss, list_elem_of_here.
  - intros y Hy. by apply Hmiss, list_elem_of_further.
Qed.

(** What a key holds in the end was there before or is one of the
    issues of the sequence. *)
Lemma foldl_addIssue_lookup_origin {A} t (mk : A → Issue) (xs : list A) st file text issue :
  lookupIssue (issuesOf t (issues (foldl (fun st x => addIssue' t (mk x) st) st xs)))
              file text = Some issue →
  lookupIssue (issuesOf t (issues st)) file text = Some issue
  ∨ ∃ x, x ∈ xs ∧ mk x = issue.
Proof.
  revert st. induction xs as [|x xs IH]; intros st Hlook; simpl in Hlook; [by left|].
  apply IH in Hlook as [Hlook|(y & Hy & Hmk)].
  - rewrite addIssue_lookup in Hlook. destruct (decide _) as [_|_] in Hlook.
    + right. exists x. split; [apply list_elem_of_here | congruence].
    + by left.
  - right. exists y. split; [by apply list_elem_of_further | done].
Qed.

(** The key of an issue of the sequence holds, in the end, an issue of
    the sequence with that key: the last one written there. *)
Lemma foldl_addIssue_lookup_last {A} t (mk : A → Issue) (xs : list A) st x :
  x ∈ xs →
  ∃ y, y ∈ xs
       ∧ keyOf (mk y) = keyOf (mk x) ∧ symbol (mk y) = symbol (mk x)
       ∧ lookupIssue (issuesOf t (issues (foldl (fun st x => addIssue' t (mk x) st) st xs)))
                     (keyOf (mk x)) (symbol (mk x))
         = Some (mk y).
Proof.
  revert st x. induction xs as [|x0 xs IH]; intros st x Hin.
  { by apply elem_of_nil in Hin. }
  simpl.
  destruct (decide (Exists (fun y => keyOf (mk y) = keyOf (mk x)
                                     ∧ symbol (mk y) = symbol (mk x)) xs)) as [Hex|Hno].
  - apply Exists_exists in Hex as (y & Hy & Hkey & Hsymbol).
    destruct (IH (addIssue' t (mk x0) st) y Hy) as (z & Hz & Hzkey & Hzsymbol & Hlook).
    exists z. split; [by apply list_elem_of_further|].
    split; [congruence|]. split; [congruence|].
    by rewrite <- Hkey, <- Hsymbol.
  - assert (x = x0) as ->.
    { apply elem_of_cons in Hin as [->|Hin]; [done|]. exfalso.
      apply Hno, Exists_exists. by exists x. }
    exists x0. split; [apply list_elem_of_here|]. split; [done|]. split; [done|].
    rewrite foldl_addIssue_lookup_miss.
    + rewrite addIssue_lookup. by rewrite decide_True.
    + intros y Hy Hhit. apply Hno, Exists_exists. by exists y.
Qed.

(** Reporting duplicates touches the [duplicates] category only. *)
Lemma reportDuplicates_sameOutside sourceFile st :
  sameOutside duplicates st (reportDuplicates' sourceFile st).
Proof.
  unfold reportDuplicates. destruct (include_duplicates _); [|apply sameOutside_refl].
  apply (foldl_addIssue_sameOutside duplicates
           (fun names => MkIssue (getFilePath sourceFile) (join "," names) None (Some names))).
Qed.

(** A declaration that is processed without a throw leaves the state as
    it is or adds one issue, under [exports], [types] or [members]. *)
Lemma processDeclaration_cases sourceFile declaration st st' :
  processDeclaration' sourceFile declaration st = Ok st' →
  st' = st ∨ ∃ category issue, category ≠ duplicates ∧ st' = addIssue' category issue st.
Proof.
  unfold processDeclaration.
  destruct (categoryFiltered _ _); [intros [= <-]; by left|].
  destruct (publicTagged _ _ _); [intros [= <-]; by left|].
  destruct (resolveIdentifier declaration) as [[identifier|]|]; simpl;
    [| intros [= <-]; by left | done].
  destruct (alreadyReported _ _ _ _); [intros [= <-]; by left|].
  intros [= <-]. unfold classify.
  repeat match goal with
         | |- context [if ?b then _ else _] => destruct b
         | |- context [match ?o with Some _ => _ | None => _ end] => destruct o
         end;
    first [by left | right; eexists _, _; split; [|reflexivity]; discriminate].
Qed.

(** What every element of a [forEach] keeps, the whole [forEach] keeps. *)
Lemma forEach_preserves {A X} (observe : State → X)
      (f : A → State → result State) (xs : list A) st st' :
  (∀ x s s', f x s = Ok s' → observe s' = observe s) →
  forEach f xs st = Ok st' →
  observe st' = observe st.
Proof.
  intros Hf. revert st. induction xs as [|x xs IH]; intros st; simpl; [by intros [= <-]|].
  destruct (f x st) as [s|] eqn:Hx; simpl; [|done].
  intros Hrest. rewrite (IH _ Hrest). by eapply Hf.
Qed.

(** The declarations of a file never change [processed]. *)
Lemma processDeclaration_processed sourceFile declaration st st' :
  processDeclaration' sourceFile declaration st = Ok st' →
  counters_processed (counters st') = counters_processed (counters st).
Proof.
  intros [->|(category & issue & _ & ->)]%processDeclaration_cases; [done|].
  apply addIssue_processed.
Qed.

(** Nor the [duplicates] map and counter. *)
Lemma processDeclaration_duplicates sourceFile declaration st st' :
  processDeclaration' sourceFile declaration st = Ok st' →
  (issues_duplicates (issues st'), counters_duplicates (counters st'))
  = (issues_duplicates (issues st), counters_duplicates (counters st)).
Proof.
  intros [->|(category & issue & Hne & ->)]%processDeclaration_cases; [done|].
  destruct (addIssue_frame category issue st duplicates Hne) as [Hi Hc].
  simpl in Hi, Hc. by rewrite Hi, Hc.
Qed.

(** What the classification of a file leaves of its duplicate report. *)
Lemma processSourceFile_duplicates sourceFile st st' :
  processSourceFile' sourceFile st = Ok st' →
  issues_duplicates (issues st') = issues_duplicates (issues (reportDuplicates' sourceFile st))
  ∧ counters_duplicates (counters st')
    = counters_duplicates (counters (reportDuplicates' sourceFile st)).
Proof.
  unfold processSourceFile.
  destruct (include_exports _ || include_types _ || include_members _).
  - destruct (size (uniqueExportedSymbols sourceFile) =? 1); [by intros [= <-]|].
    destruct (forEach _ _ _) as [s|] eqn:Hloop; simpl; [|done].
    intros [= <-]. simpl.
    apply (forEach_preserves
             (fun st => (issues_duplicates (issues st), counters_duplicates (counters st))))
      in Hloop; [by injection Hloop|].
    intros declarations s1 s2.
    apply (forEach_preserves
             (fun st => (issues_duplicates (issues st), counters_duplicates (counters st)))).
    intros declaration s3 s4. apply processDeclaration_duplicates.
  - by intros [= <-].
Qed.

Abbreviation skipsClassification' := (skipsClassification configuration).

(** A file that line 92 leaves early keeps [processed] as it was; every
    other file that is processed without a throw adds one to it. *)
Lemma processSourceFile_processed sourceFile st st' :
  processSourceFile' sourceFile st = Ok st' →
  counters_processed (counters st')
  = counters_processed (counters st) + (if skipsClassification' sourceFile then 0 else 1).
Proof.
  unfold processSourceFile, skipsClassification.
  pose proof (reportDuplicates_sameOutside sourceFile st) as [_ Hdup].
  destruct (include_exports _ || include_types _ || include_members _); simpl.
  - destruct (size (uniqueExportedSymbols sourceFile) =? 1).
    + intros [= <-]. lia.
    + destruct (forEach _ _ _) as [s|] eqn:Hloop; simpl; [|done].
      intros [= <-]. simpl.
      apply (forEach_preserves (fun st => counters_processed (counters st))) in Hloop;
        [lia|].
      intros declarations s1 s2.
      apply (forEach_preserves (fun st => counters_processed (counters st))).
      intros declaration s3 s4. apply processDeclaration_processed.
  - intros [= <-]. simpl. lia.
Qed.

(** Over a list of files processed without a throw, [processed] grows by
    the number of files that line 92 does not leave early. *)
Lemma forEach_processSourceFile_processed (files : list SourceFile) st st' :
  forEach processSourceFile' files st = Ok st' →
  counters_processed (counters st')
  = counters_processed (counters st)
    + length (filter (fun file => skipsClassification' file = false) files).
Proof.
  revert st. induction files as [|file files IH]; intros st; simpl.
  - intros [= <-]. lia.
  - destruct (processSourceFile' file st) as [s|] eqn:Hfile; simpl; [|done].
    intros Hrest. rewrite (IH _ Hrest), (processSourceFile_processed _ _ _ Hfile).
    rewrite filter_cons. case_decide as Hskip.
    + rewrite Hskip. simpl. lia.
    + destruct (skipsClassification' file); [simpl; lia | done].
Qed.

(** C2, as the code has it. A file whose exported declarations, counted
    once each, number exactly one is processed without a throw and
    leaves the [exports], [types] and [members] maps and counters as
    they were, whatever the references of that declaration are. *)
Theorem C2_single_declaration_skipped sourceFile st :
  size (uniqueExportedSymbols sourceFile) = 1 →
  ∃ st', processSourceFile' sourceFile st = Ok st'
         ∧ ∀ category, category ≠ duplicates →
             issuesOf category (issues st') = issuesOf category (issues st)
             ∧ counterOf category (counters st') = counterOf category (counters st).
Proof.
  intros Hone. unfold processSourceFile. rewrite Hone. simpl.
  pose proof (reportDuplicates_sameOutside sourceFile st) as [Hdup _].
  destruct (include_exports _ || include_types _ || include_members _).
  - eexists. split; [done|]. intros category Hne. by apply Hdup.
  - eexists. split; [done|]. intros category Hne. simpl. by apply Hdup.
Qed.

(** C7. With [duplicates] enabled, lines 82-88 call [addIssue] once
    for every group that [findDuplicateExportedNames] returns, with the
    names of the group joined by a comma as [symbol] and the names
    themselves, in detection order, as [symbols]; the groups returned
    are those of the declarations that two or more export names are
    bound to, one group per declaration. Hence the [duplicates] counter
    grows by the number of such declarations; the key of the joined
    names of each group reads an issue of a group with those joined names
    afterwards; an entry of the [duplicates] map that was not there
    before is the issue of such a group, so that a declaration with a
    single name adds none and two names of one declaration are not
    reported apart; the other categories are untouched, and the
    classification of the file leaves the [duplicates] map and counter
    as the report made them. With [duplicates] disabled, lines 82-88
    do nothing. *)
Theorem C7_one_issue_per_group sourceFile st :
  let exportDeclarations := getExportedDeclarations sourceFile in
  let issueOf names := MkIssue (getFilePath sourceFile) (join "," names) None (Some names) in
  let key := relative oracle (cwd configuration) (getFilePath sourceFile) in
  let st' := reportDuplicates' sourceFile st in
  (include_duplicates (include configuration) = true →
   ∃ declarations : list nat,
     NoDup declarations
     ∧ (∀ d, d ∈ declarations ↔ 2 ≤ length (namesBoundTo d exportDeclarations))
     ∧ findDuplicateExportedNames sourceFile
       = (fun d => namesBoundTo d exportDeclarations) <$> declarations
     ∧ st' = foldl (fun st names => addIssue' duplicates (issueOf names) st) st
                   (findDuplicateExportedNames sourceFile)
     ∧ counters_duplicates (counters st')
       = counters_duplicates (counters st) + length declarations
     ∧ (∀ d, d ∈ declarations →
          ∃ d', d' ∈ declarations
                ∧ join "," (namesBoundTo d' exportDeclarations)
                  = join "," (namesBoundTo d exportDeclarations)
                ∧ lookupIssue (issues_duplicates (issues st')) key
                              (join "," (namesBoundTo d exportDeclarations))
                  = Some (issueOf (namesBoundTo d' exportDeclarations)))
     ∧ (∀ file text issue,
          lookupIssue (issues_duplicates (issues st')) file text = Some issue →
          lookupIssue (issues_duplicates (issues st)) file text = Some issue
          ∨ ∃ d, d ∈ declarations ∧ issue = issueOf (namesBoundTo d exportDeclarations))
     ∧ sameOutside duplicates st st'
     ∧ (∀ final, processSourceFile' sourceFile st = Ok final →
                 issues_duplicates (issues final) = issues_duplicates (issues st')
                 ∧ counters_duplicates (counters final) = counters_duplicates (counters st')))
  ∧ (include_duplicates (include configuration) = false → st' = st).
Proof.
  intros exportDeclarations issueOf key st'. split.
  - intros Hflag.
    destruct (findDuplicateExportedNames_groups sourceFile)
      as (declarations & Hnodup & Hmem & Hgroups).
    fold exportDeclarations in Hmem, Hgroups.
    exists declarations. split; [done|]. split; [done|]. split; [done|].
    assert (st' = foldl (fun st names => addIssue' duplicates (issueOf names) st) st
                        (findDuplicateExportedNames sourceFile))
      as Hst'.
    { subst st'. unfold reportDuplicates. by rewrite Hflag. }
    split; [done|]. rewrite Hgroups in Hst'.
    split; [|split; [|split; [|split]]].
    + rewrite Hst'.
      rewrite (foldl_addIssue_counter duplicates issueOf). simpl. by rewrite length_fmap.
    + intros d Hd. rewrite Hst'.
      destruct (foldl_addIssue_lookup_last
                  duplicates issueOf
                  ((fun d => namesBoundTo d exportDeclarations) <$> declarations) st
                  (namesBoundTo d exportDeclarations))
        as (names & (d' & -> & Hd')%list_elem_of_fmap & _ & Hjoin & Hlook).
      { apply list_elem_of_fmap. by exists d. }
      exists d'. split; [done|]. split; [exact Hjoin|]. exact Hlook.
    + intros file text issue Hlook. rewrite Hst' in Hlook.
      apply (foldl_addIssue_lookup_origin duplicates issueOf) in Hlook
        as [Hlook|(names & (d & -> & Hd)%list_elem_of_fmap & <-)]; [by left|].
      right. by exists d.
    + subst st'. apply reportDuplicates_sameOutside.
    + intros final Hfinal. subst st'. by apply processSourceFile_duplicates.
  - intros Hflag. subst st'. unfold reportDuplicates. by rewrite Hflag.
Qed.

End Closures.

(** ** The whole run *)

(** C10. With [exports], [types], [members] and [duplicates] all
    disabled, [run] returns without visiting a file: the four issue maps
    are empty and their counters zero, [issues.files] is the set of paths
    of the unused production files, [counters.processed] equals
    [counters.files], which is the size of that set (the number of unused
    files, their paths being distinct), and the terminal is only reset. *)
Theorem C10_only_unused_files
    (oracle : ParseOracle) (configuration : Configuration)
    (entryFiles productionFiles projectFiles : list SourceFile) :
  include_exports (include configuration) = false →
  include_types (include configuration) = false →
  include_members (include configuration) = false →
  include_duplicates (include configuration) = false →
  let unusedProductionFiles := (partitionSourceFiles projectFiles productionFiles).2 in
  ∃ st,
    run oracle configuration entryFiles productionFiles projectFiles = Ok st
    ∧ issues_exports (issues st) = ∅
    ∧ issues_types (issues st) = ∅
    ∧ issues_members (issues st) = ∅
    ∧ issues_duplicates (issues st) = ∅
    ∧ counters_exports (counters st) = 0
    ∧ counters_types (counters st) = 0
    ∧ counters_members (counters st) = 0
    ∧ counters_duplicates (counters st) = 0
    ∧ (∀ path, path ∈ issues_files (issues st)
               ↔ ∃ file, file ∈ unusedProductionFiles ∧ getFilePath file = path)
    ∧ counters_processed (counters st) = counters_files (counters st)
    ∧ counters_files (counters st) = size (issues_files (issues st))
    ∧ (NoDup (getFilePath <$> unusedProductionFiles) →
       counters_files (counters st) = length unusedProductionFiles)
    ∧ terminal st = (if isShowProgress configuration then [ResetLines] else []).
Proof.
  intros Hexports Htypes Hmembers Hduplicates unusedProductionFiles.
  unfold run. subst unusedProductionFiles.
  destruct (partitionSourceFiles projectFiles productionFiles) as [used unused].
  destruct (partitionSourceFiles used entryFiles) as [entries usedNonEntry].
  rewrite Hexports, Htypes, Hmembers, Hduplicates. simpl.
  eexists. split; [done|].
  assert (∀ path, path ∈ (list_to_set (getFilePath <$> unused) : gset string)
                  ↔ ∃ file, file ∈ unused ∧ getFilePath file = path) as Hfiles.
  { intros path. rewrite elem_of_list_to_set, list_elem_of_fmap.
    split; intros (file & ? & ?); by exists file. }
  assert (NoDup (getFilePath <$> unused) →
          size (list_to_set (getFilePath <$> unused) : gset string) = length unused) as Hsize.
  { intros Hnodup. by rewrite size_list_to_set, length_fmap. }
  by destruct (isShowProgress configuration).
Qed.

(** What [processed] is at the end of a run that enters the loop: the
    number of distinct unused paths it starts from, plus the number of
    used non-entry files that line 92 does not leave early. *)
Lemma run_processed
    (oracle : ParseOracle) (configuration : Configuration)
    (entryFiles productionFiles projectFiles : list SourceFile) (st : State) :
  include_exports (include configuration)
  || include_types (include configuration)
  || include_members (include configuration)
  || include_duplicates (include configuration) = true →
  run oracle configuration entryFiles productionFiles projectFiles = Ok st →
  let used := (partitionSourceFiles projectFiles productionFiles).1 in
  let unusedProductionFiles := (partitionSourceFiles projectFiles productionFiles).2 in
  let usedNonEntryFiles := (partitionSourceFiles used entryFiles).2 in
  counters_processed (counters st)
  = size (list_to_set (getFilePath <$> unusedProductionFiles) : gset string)
    + length (filter (fun file => skipsClassification configuration file = false)
                     usedNonEntryFiles).
Proof.
  intros Hflags. unfold run.
  destruct (partitionSourceFiles projectFiles productionFiles) as [used unused].
  destruct (partitionSourceFiles used entryFiles) as [entries usedNonEntry] eqn:Hpart.
  rewrite Hflags. simpl. rewrite Hpart. simpl.
  destruct (forEach _ _ _) as [s|] eqn:Hloop; simpl; [|done].
  apply forEach_processSourceFile_processed in Hloop. simpl in Hloop.
  intros [= <-]. by destruct (isShowProgress configuration).
Qed.

(** ** The run as a sequence of steps *)

Section Trace.

Context (oracle : ParseOracle) (configuration : Configuration).
Context (unusedProductionFiles usedNonEntryFiles : list SourceFile).

Abbreviation addIssue_ :=
  (addIssue oracle configuration unusedProductionFiles usedNonEntryFiles).
Abbreviation reaches_ :=
  (reaches oracle configuration unusedProductionFiles usedNonEntryFiles).
Abbreviation emitted_ := (emitted oracle configuration).
Abbreviation processSourceFile_ :=
  (processSourceFile oracle configuration unusedProductionFiles usedNonEntryFiles).

Lemma reaches_trans P st1 st2 st3 :
  reaches_ P st1 st2 → reaches_ P st2 st3 → reaches_ P st1 st3.
Proof.
  intros H12 H23. induction H23 as [|st2 st3 category issue _ IH HP|st2 st3 _ IH].
  - done.
  - apply reaches_emit; [by apply IH | done].
  - apply reaches_done. by apply IH.
Qed.

Lemma reaches_weaken (P Q : State → IssueType → Issue → Prop) st st' :
  (∀ s category issue, P s category issue → Q s category issue) →
  reaches_ P st st' → reaches_ Q st st'.
Proof.
  intros HPQ H. induction H as [|st st' category issue _ IH HP|st st' _ IH].
  - apply reaches_refl.
  - apply reaches_emit; [done | by apply HPQ].
  - by apply reaches_done.
Qed.

Lemma forEach_reaches {A} P (f : A → State → result State) (xs : list A) st st' :
  (∀ x s s', x ∈ xs → f x s = Ok s' → reaches_ P s s') →
  forEach f xs st = Ok st' →
  reaches_ P st st'.
Proof.
  revert st. induction xs as [|x xs IH]; intros st Hf; simpl.
  - intros [= <-]. apply reaches_refl.
  - destruct (f x st) as [s|] eqn:Hx; simpl; [|done]. intros Hrest.
    eapply reaches_trans.
    + eapply Hf; [apply list_elem_of_here | done].
    + apply IH; [|done]. intros y s1 s2 Hy. apply Hf. by apply list_elem_of_further.
Qed.

Lemma elem_of_concat {A} (x : A) (ls : list (list A)) :
  x ∈ concat ls ↔ ∃ l, l ∈ ls ∧ x ∈ l.
Proof.
  rewrite list_elem_of_In, in_concat. split.
  - intros (l & Hl & Hx). exists l. by rewrite !list_elem_of_In.
  - intros (l & Hl & Hx). exists l. by rewrite <- !list_elem_of_In.
Qed.

(** [classify] adds what [verdict] says. *)
Lemma classify_verdict sourceFile type identifier st :
  classify oracle configuration unusedProductionFiles usedNonEntryFiles
           sourceFile type identifier st
  = match verdict oracle sourceFile type identifier with
    | Some (category, issue) => addIssue_ category issue st
    | None => st
    end.
Proof.
  unfold classify, verdict.
  destruct (length (findReferences oracle identifier) =? 0); [done|].
  destruct (negb (isReferencedOnlyBySelf _ _)); [done|].
  destruct (0 <? length (findReferencingNamespaceNodes oracle sourceFile)); [done|].
  by destruct type.
Qed.

Lemma processDeclaration_reaches sourceFile declaration st st' :
  classifies configuration = true →
  declaration ∈ concat (snd <$> getExportedDeclarations sourceFile) →
  processDeclaration oracle configuration unusedProductionFiles usedNonEntryFiles
                     sourceFile declaration st = Ok st' →
  reaches_ (emitted_ sourceFile) st st'.
Proof.
  intros Hflags Hin. unfold processDeclaration.
  destruct (categoryFiltered _ _) eqn:Hcat; [intros [= <-]; apply reaches_refl|].
  destruct (publicTagged _ _ _) eqn:Hpub; [intros [= <-]; apply reaches_refl|].
  destruct (resolveIdentifier declaration) as [[identifier|]|] eqn:Hres; simpl;
    [| intros [= <-]; apply reaches_refl | done].
  destruct (alreadyReported _ _ _ _) eqn:Hguard; [intros [= <-]; apply reaches_refl|].
  intros [= <-]. rewrite classify_verdict.
  destruct (verdict oracle sourceFile (getType oracle declaration) identifier)
    as [[category issue]|] eqn:Hverdict; [|apply reaches_refl].
  apply reaches_emit; [apply reaches_refl|].
  right. split; [done|]. by exists declaration, identifier.
Qed.

Lemma reportDuplicates_reaches sourceFile st :
  reaches_ (emitted_ sourceFile) st
           (reportDuplicates oracle configuration unusedProductionFiles usedNonEntryFiles
                             sourceFile st).
Proof.
  unfold reportDuplicates.
  destruct (include_duplicates (include configuration)) eqn:Hflag; [|apply reaches_refl].
  assert (∀ groups, (∀ names, names ∈ groups → names ∈ findDuplicateExportedNames sourceFile) →
            ∀ s, reaches_ (emitted_ sourceFile) s
                   (foldl (fun st names =>
                             addIssue_ duplicates
                               (MkIssue (getFilePath sourceFile) (join "," names) None
                                        (Some names)) st) s groups)) as Hall.
  { induction groups as [|names groups IH]; intros Hsub s; simpl; [apply reaches_refl|].
    eapply reaches_trans; [|apply IH].
    - apply reaches_emit; [apply reaches_refl|]. left. split; [done|]. split; [done|].
      exists names. split; [|done]. apply Hsub, list_elem_of_here.
    - intros other Hother. by apply Hsub, list_elem_of_further. }
  by apply Hall.
Qed.

(** A file that is processed without a throw takes the state through
    steps that the file allows. *)
Lemma processSourceFile_reaches sourceFile st st' :
  processSourceFile_ sourceFile st = Ok st' →
  reaches_ (emitted_ sourceFile) st st'.
Proof.
  unfold processSourceFile.
  pose proof (reportDuplicates_reaches sourceFile st) as Hdup.
  destruct (include_exports _ || include_types _ || include_members _) eqn:Hflags.
  - destruct (size (uniqueExportedSymbols sourceFile) =? 1); [by intros [= <-]|].
    destruct (forEach _ _ _) as [s|] eqn:Hloop; simpl; [|done].
    intros [= <-]. apply reaches_done. eapply reaches_trans; [exact Hdup|].
    eapply forEach_reaches; [|exact Hloop].
    intros declarations s1 s2 Hdecls Hinner. eapply forEach_reaches; [|exact Hinner].
    intros declaration s3 s4 Hdecl. apply processDeclaration_reaches; [done|].
    apply elem_of_concat. by exists declarations.
  - intros [= <-]. by apply reaches_done.
Qed.

Abbreviation allowed_ := (allowed oracle configuration usedNonEntryFiles).

Lemma forEach_processSourceFile_reaches st st' :
  forEach processSourceFile_ usedNonEntryFiles st = Ok st' →
  reaches_ allowed_ st st'.
Proof.
  apply forEach_reaches. intros sourceFile s s' Hin Hfile.
  eapply reaches_weaken; [|by apply processSourceFile_reaches].
  intros s0 category issue Hemit. by exists sourceFile.
Qed.

(** *** What a verdict and an allowed step look like *)

Lemma verdict_issue sourceFile type identifier category issue :
  verdict oracle sourceFile type identifier = Some (category, issue) →
  category ≠ duplicates
  ∧ filePath issue = getFilePath sourceFile
  ∧ symbol issue = getText identifier
  ∧ symbols issue = None
  ∧ symbolType issue = (if decide (category = types) then type else None)
  ∧ (category = types → is_Some type).
Proof.
  unfold verdict.
  destruct (length (findReferences oracle identifier) =? 0); [by intros [= <- <-]|].
  destruct (negb (isReferencedOnlyBySelf _ _)); [done|].
  destruct (0 <? length (findReferencingNamespaceNodes oracle sourceFile));
    [by intros [= <- <-]|].
  destruct type; intros [= <- <-]; repeat split; done.
Qed.

Lemma emitted_shape sourceFile st category issue :
  emitted_ sourceFile st category issue →
  filePath issue = getFilePath sourceFile
  ∧ match category with
    | duplicates =>
        symbolType issue = None
        ∧ ∃ names, symbols issue = Some names ∧ symbol issue = join "," names
    | types => is_Some (symbolType issue) ∧ symbols issue = None
    | exports | members => symbolType issue = None ∧ symbols issue = None
    end.
Proof.
  intros [(-> & _ & names & _ & ->)|(_ & declaration & identifier & _ & _ & _ & _ & _ & Hv)].
  - split; [done|]. split; [done|]. by exists names.
  - apply verdict_issue in Hv as (Hne & Hfile & _ & Hsymbols & Htype & Hsome).
    split; [done|]. rewrite Htype.
    destruct category; try done; rewrite ?decide_True by done; split; try done.
    by apply Hsome.
Qed.

(** *** Invariants of a sequence of steps *)

(** The set of unused files and its counter are never written. *)
Lemma reaches_files P st st' :
  reaches_ P st st' →
  issues_files (issues st') = issues_files (issues st)
  ∧ counters_files (counters st') = counters_files (counters st).
Proof.
  induction 1 as [|st st' category issue _ [IHi IHc] _|st st' _ IH]; [done| |done].
  rewrite addIssue_issues, addIssue_counters, files_set, counters_files_set. done.
Qed.

(** A category that no step names keeps its map and its counter. *)
Lemma reaches_frame P untouched st st' :
  (∀ s category issue, P s category issue → category ≠ untouched) →
  reaches_ P st st' →
  issuesOf untouched (issues st') = issuesOf untouched (issues st)
  ∧ counterOf untouched (counters st') = counterOf untouched (counters st).
Proof.
  intros HP. induction 1 as [|st st' category issue _ [IHi IHc] Hstep|st st' _ [IHi IHc]].
  - done.
  - destruct (addIssue_frame oracle configuration unusedProductionFiles usedNonEntryFiles
                             category issue st' untouched) as [Hi Hc].
    { by eapply HP. }
    by rewrite Hi, Hc.
  - split; [done|]. simpl. rewrite <- IHc. by destruct untouched.
Qed.

(** Every stored issue went through a step, sits under its own key, and
    has what the steps guarantee. *)
Lemma reaches_stored (Q : IssueType → Issue → Prop) P st st' :
  (∀ s category issue, P s category issue → Q category issue) →
  reaches_ P st st' →
  (∀ category file text issue,
      lookupIssue (issuesOf category (issues st)) file text = Some issue →
      Q category issue
      ∧ file = relative oracle (cwd configuration) (filePath issue)
      ∧ text = symbol issue) →
  ∀ category file text issue,
    lookupIssue (issuesOf category (issues st')) file text = Some issue →
    Q category issue
    ∧ file = relative oracle (cwd configuration) (filePath issue)
    ∧ text = symbol issue.
Proof.
  intros HP Hreach Hstart.
  induction Hreach as [|st st' category issue _ IH Hstep|st st' _ IH];
    [done | specialize (IH Hstart) | exact (IH Hstart)].
  intros other file text stored.
  destruct (decide (category = other)) as [<-|Hne].
  - rewrite addIssue_lookup. case_decide as Hkey.
    + intros [= <-]. destruct Hkey as [<- <-]. split; [by eapply HP|done].
    + apply IH.
  - destruct (addIssue_frame oracle configuration unusedProductionFiles usedNonEntryFiles
                             category issue st' other Hne) as [-> _].
    apply IH.
Qed.

End Trace.

(** ** The identifier of a declaration *)

Lemma Node_nested_ind (P : Node → Prop) :
  (∀ id kind text children, Forall P children → P (MkNode id kind text children)) →
  ∀ n, P n.
Proof.
  intros Hnode. fix IH 1. intros [id kind text children]. apply Hnode.
  induction children as [|child children IHchildren]; constructor; [apply IH | done].
Qed.

Lemma find_app {A} (f : A → bool) (l1 l2 : list A) :
  List.find f (l1 ++ l2)
  = match List.find f l1 with
    | Some x => Some x
    | None => List.find f l2
    end.
Proof. induction l1 as [|x l1 IH]; simpl; [done|]. by destruct (f x). Qed.

(** The depth-first search finds the first node of the kind in pre-order. *)
Lemma getFirstDescendantByKind_preorder n kind :
  getFirstDescendantByKind n kind = List.find (fun c => isKind c kind) (descendants n).
Proof.
  induction n as [id k text children IH] using Node_nested_ind. simpl.
  induction children as [|child children IHchildren]; [done|].
  apply Forall_cons in IH as [Hchild Hrest]. simpl.
  destruct (isKind child kind); [done|].
  rewrite find_app, <- Hchild.
  destruct (getFirstDescendantByKind child kind); [done|]. by apply IHchildren.
Qed.

Lemma find_elem_of {A} (f : A → bool) (l : list A) x :
  List.find f l = Some x → x ∈ l ∧ f x = true.
Proof. intros [Hin Hf]%find_some. by rewrite list_elem_of_In. Qed.

Lemma children_descendants n child : child ∈ getChildren n → child ∈ descendants n.
Proof.
  destruct n as [id k text children]. simpl.
  induction children as [|c children IH]; [by intros ?%elem_of_nil|].
  intros [->|Hin]%elem_of_cons; [apply list_elem_of_here|].
  apply list_elem_of_further, elem_of_app. right. by apply IH.
Qed.

(** What [resolveIdentifier] returns is a node of kind [Identifier]: the
    declaration itself or a node below it; for a declaration that is
    neither a bare name, a named declaration nor a member access it is
    the first [Identifier] below it in pre-order, if there is one. *)
Theorem resolveIdentifier_finds_identifier declaration :
  (∀ identifier,
      resolveIdentifier declaration = Ok (Some identifier) →
      getKind identifier = Identifier
      ∧ (identifier = declaration ∨ identifier ∈ descendants declaration))
  ∧ (shapeOf declaration = OtherShape →
     resolveIdentifier declaration
     = Ok (List.find (fun n => isKind n Identifier) (descendants declaration))).
Proof.
  rewrite resolveIdentifier_shape. unfold representativeIdentifier. split.
  - intros identifier. destruct (shapeOf declaration) eqn:Hshape.
    + intros [= <-]. split; [|by left].
      unfold shapeOf in Hshape. by destruct (getKind declaration).
    + unfold getFirstChildByKind.
      destruct (List.find _ _) as [found|] eqn:Hfind; [|done]. intros [= <-].
      apply find_elem_of in Hfind as [Hin Hkind]. split.
      * by apply bool_decide_eq_true in Hkind.
      * right. by apply children_descendants.
    + unfold getLastChildByKind.
      destruct (List.find _ _) as [found|] eqn:Hfind; [|done]. intros [= <-].
      apply find_elem_of in Hfind as [Hin Hkind]. split.
      * by apply bool_decide_eq_true in Hkind.
      * right. apply children_descendants.
        apply list_elem_of_In, in_rev. by apply list_elem_of_In.
    + rewrite getFirstDescendantByKind_preorder. intros [= Hfind].
      apply find_elem_of in Hfind as [Hin Hkind]. split.
      * by apply bool_decide_eq_true in Hkind.
      * by right.
  - intros ->. by rewrite getFirstDescendantByKind_preorder.
Qed.

(** ** How calls of [addIssue] compose *)

Lemma writeIssue_commute text1 issue1 text2 issue2 object :
  text1 ≠ text2 →
  writeIssue text1 issue1 (writeIssue text2 issue2 object)
  = writeIssue text2 issue2 (writeIssue text1 issue1 object).
Proof.
  intros Htext. unfold writeIssue.
  destruct (String.eqb text1 "__proto__") eqn:Htext1;
    destruct (String.eqb text2 "__proto__") eqn:Htext2;
    cbn [ownIssues prototypeIssue]; try done.
  - apply String.eqb_eq in Htext1, Htext2. congruence.
  - by rewrite insert_insert_ne.
Qed.

Lemma writeIssue_overwrite text issue1 issue2 object :
  writeIssue text issue2 (writeIssue text issue1 object) = writeIssue text issue2 object.
Proof.
  unfold writeIssue. destruct (String.eqb text "__proto__");
    cbn [ownIssues prototypeIssue]; [done|]. by rewrite insert_insert_eq.
Qed.

Lemma store_commute (m : IssueMap) file1 text1 issue1 file2 text2 issue2 :
  ¬ (file1 = file2 ∧ text1 = text2) →
  storeIssue file1 text1 issue1 (storeIssue file2 text2 issue2 m)
  = storeIssue file2 text2 issue2 (storeIssue file1 text1 issue1 m).
Proof.
  intros Hne. unfold storeIssue.
  destruct (decide (file1 = file2)) as [<-|Hfile].
  - assert (text1 ≠ text2) as Htext by (intros ->; by apply Hne).
    rewrite !lookup_insert_eq, !insert_insert_eq. simpl.
    by rewrite writeIssue_commute.
  - rewrite (lookup_insert_ne _ file2 file1) by done.
    rewrite (lookup_insert_ne _ file1 file2) by done.
    by rewrite insert_insert_ne.
Qed.

Lemma store_overwrite (m : IssueMap) file text issue1 issue2 :
  storeIssue file text issue2 (storeIssue file text issue1 m)
  = storeIssue file text issue2 m.
Proof.
  unfold storeIssue.
  rewrite lookup_insert_eq, insert_insert_eq. simpl. by rewrite writeIssue_overwrite.
Qed.

Section Composition.

Context (oracle : ParseOracle) (configuration : Configuration).
Context (unusedProductionFiles usedNonEntryFiles : list SourceFile).

Abbreviation add_ :=
  (addIssue oracle configuration unusedProductionFiles usedNonEntryFiles).
Abbreviation key_ issue := (relative oracle (cwd configuration) (filePath issue)).

(** Two calls of [addIssue] that do not write the same key of the same
    category give the same issues and counters in either order. *)
Theorem addIssue_commutes category1 issue1 category2 issue2 st :
  ¬ (category1 = category2 ∧ key_ issue1 = key_ issue2 ∧ symbol issue1 = symbol issue2) →
  let add := addIssue oracle configuration unusedProductionFiles usedNonEntryFiles in
  issues (add category1 issue1 (add category2 issue2 st))
  = issues (add category2 issue2 (add category1 issue1 st))
  ∧ counters (add category1 issue1 (add category2 issue2 st))
    = counters (add category2 issue2 (add category1 issue1 st)).
Proof.
  intros Hne add. subst add. rewrite !addIssue_issues, !addIssue_counters. split.
  - destruct (decide (category1 = category2)) as [<-|Hcat].
    + rewrite !issuesOf_set_eq.
      assert (¬ (key_ issue1 = key_ issue2 ∧ symbol issue1 = symbol issue2)) as Hkey
        by (intros [? ?]; by apply Hne).
      pose proof (store_commute (issuesOf category1 (issues st))
                                (key_ issue1) (symbol issue1) issue1
                                (key_ issue2) (symbol issue2) issue2 Hkey) as Hswap.
      rewrite Hswap. by destruct category1.
    + rewrite !issuesOf_set_ne by done. by destruct category1, category2.
  - destruct category1, category2; done.
Qed.

(** A second issue under the key of a first replaces it: the issues are
    those of the second call alone, and the counter has counted both. *)
Theorem addIssue_overwrites category issue1 issue2 st :
  key_ issue1 = key_ issue2 →
  symbol issue1 = symbol issue2 →
  issues (add_ category issue2 (add_ category issue1 st))
  = issues (add_ category issue2 st)
  ∧ counterOf category (counters (add_ category issue2 (add_ category issue1 st)))
    = 2 + counterOf category (counters st).
Proof.
  intros Hkey Hsymbol. rewrite !addIssue_issues, !addIssue_counters. split.
  - rewrite !issuesOf_set_eq, Hkey, Hsymbol.
    pose proof (store_overwrite (issuesOf category (issues st))
                                (key_ issue2) (symbol issue2) issue1 issue2) as Hover.
    rewrite Hover. by destruct category.
  - by rewrite !counterOf_set_eq.
Qed.

End Composition.

(** ** What the steps do to the terminal and to the counters *)

Section Accounting.

Context (oracle : ParseOracle) (configuration : Configuration).
Context (unusedProductionFiles usedNonEntryFiles : list SourceFile).

Abbreviation addIssue' :=
  (addIssue oracle configuration unusedProductionFiles usedNonEntryFiles).
Abbreviation reaches' :=
  (reaches oracle configuration unusedProductionFiles usedNonEntryFiles).
Abbreviation total' := (length unusedProductionFiles + length usedNonEntryFiles).

(** An invariant of the two kinds of step is an invariant of their
    sequences. *)
Lemma reaches_invariant (I : State → Prop) P st st' :
  (∀ s category issue, I s → P s category issue → I (addIssue' category issue s)) →
  (∀ s, I s → I (incrementProcessed s)) →
  reaches' P st st' → I st → I st'.
Proof.
  intros Hemit Hdone Hreach Hstart.
  induction Hreach as [|st st' category issue _ IH Hstep|st st' _ IH]; [done| |].
  - apply Hemit; [by apply IH | done].
  - apply Hdone. by apply IH.
Qed.

(** A call of [addIssue] writes one render to the terminal when progress
    is shown, with the counter and the total of that moment, and nothing
    otherwise. *)
Lemma addIssue_terminal category issue st :
  ∃ percentage rest,
    terminal (addIssue' category issue st)
    = terminal st
      ++ (if isShowProgress configuration
          then [Update (ProgressLine percentage
                                     (length unusedProductionFiles
                                      + counters_processed (counters st))
                                     total'
                        :: rest)]
          else []).
Proof.
  unfold addIssue, updateProcessingOutput.
  destruct (isShowProgress configuration); simpl.
  - rewrite processed_set. by eexists _, _.
  - exists (S754_zero false), []. by rewrite app_nil_r.
Qed.

Lemma addIssue_issueCount category issue st :
  issueCount (counters (addIssue' category issue st)) = S (issueCount (counters st)).
Proof. rewrite addIssue_counters. unfold issueCount. destruct category; simpl; lia. Qed.

(** The renders of a sequence of steps: one per issue counted, each with
    the total of the pass. *)
Lemma reaches_terminal P st st' :
  reaches' P st st' →
  ∃ updates,
    terminal st' = terminal st ++ updates
    ∧ Forall (fun event => ∃ percentage counter rest,
                  event = Update (ProgressLine percentage counter total' :: rest)) updates
    ∧ (isShowProgress configuration = true →
       issueCount (counters st') = issueCount (counters st) + length updates)
    ∧ (isShowProgress configuration = false → updates = []).
Proof.
  induction 1 as [|st st' category issue _ (updates & Ht & Hall & Hcount & Hoff) _
                  |st st' _ (updates & Ht & Hall & Hcount & Hoff)].
  - exists []. rewrite app_nil_r. split; [done|]. split; [constructor|].
    split; [intros _; simpl; lia | done].
  - destruct (addIssue_terminal category issue st') as (percentage & rest & Hadd).
    destruct (isShowProgress configuration) eqn:Hshow.
    + exists (updates ++ [Update (ProgressLine percentage
                                    (length unusedProductionFiles
                                     + counters_processed (counters st'))
                                    total' :: rest)]).
      rewrite Hadd, Ht, <- app_assoc. split; [done|]. split.
      * apply Forall_app. split; [done|]. constructor; [by eexists _, _, _ | constructor].
      * split; [|done]. intros _.
        rewrite addIssue_issueCount, (Hcount eq_refl), length_app. simpl. lia.
    + exists []. rewrite Hadd, Ht, (Hoff eq_refl), !app_nil_r.
      split; [done|]. split; [constructor|]. by split.
  - exists updates. split; [done|]. split; [done|]. split; [|done].
    intros Hshow. rewrite <- (Hcount Hshow). unfold issueCount. done.
Qed.

(** The counters shown by the renders of a sequence of steps never
    decrease, and lie between what [processed] was and what it became. *)
Lemma reaches_counters P st st' :
  reaches' P st st' →
  counters_processed (counters st) ≤ counters_processed (counters st')
  ∧ ∃ shown,
      renderedCounters (terminal st') = renderedCounters (terminal st) ++ shown
      ∧ StronglySorted le shown
      ∧ Forall (fun counter =>
                  length unusedProductionFiles + counters_processed (counters st)
                  ≤ counter
                  ≤ length unusedProductionFiles + counters_processed (counters st'))
               shown.
Proof.
  induction 1 as [|st st' category issue _ (Hle & shown & Ht & Hsorted & Hall) _
                  |st st' _ (Hle & shown & Ht & Hsorted & Hall)].
  - split; [done|]. exists []. rewrite app_nil_r. repeat split; constructor.
  - rewrite addIssue_processed. split; [done|].
    destruct (addIssue_terminal category issue st') as (percentage & rest & ->).
    unfold renderedCounters in *. rewrite omap_app, Ht.
    destruct (isShowProgress configuration); simpl.
    + exists (shown ++ [length unusedProductionFiles + counters_processed (counters st')]).
      rewrite <- app_assoc. split; [done|]. split.
      * apply StronglySorted_app_2; [|done|repeat constructor].
        intros c1 c2 Hc1 ->%list_elem_of_singleton.
        rewrite Forall_forall in Hall. by apply Hall.
      * apply Forall_app. split; [done|]. constructor; [lia|constructor].
    + exists shown. by rewrite app_nil_r.
  - split; [simpl; lia|]. exists shown. split; [done|]. split; [done|].
    eapply Forall_impl; [exact Hall|]. simpl. intros counter. lia.
Qed.

(** The keys of a map after one more issue is stored: the same keys when
    the key was taken, one more when it was free. *)
Lemma storedKeys_insert (m : IssueMap) keys file text issue :
  storedKeys m keys →
  ∃ keys',
    storedKeys (storeIssue file text issue m) keys'
    ∧ length keys' = (if decide (is_Some (lookupIssue m file text))
                      then length keys else S (length keys)).
Proof.
  intros [Hnodup Hkeys].
  destruct (decide (is_Some (lookupIssue m file text))) as [Htaken|Hfree].
  - exists keys. split; [|done]. split; [done|]. intros f t.
    rewrite lookupIssue_insert, Hkeys. case_decide as Hkey; [|done].
    destruct Hkey as [<- <-]. split; [by eexists | done].
  - exists ((file, text) :: keys). split; [|done]. split.
    + apply NoDup_cons. split; [|done]. by rewrite Hkeys.
    + intros f t. rewrite lookupIssue_insert, elem_of_cons, Hkeys.
      case_decide as Hkey.
      * destruct Hkey as [<- <-]. split; [by eexists | by left].
      * split; [|by right]. intros [[= -> ->]|?]; [|done]. by destruct Hkey.
Qed.

End Accounting.

(** ** The outcomes of one declaration and of one file *)

Section Outcomes.

Context (oracle : ParseOracle) (configuration : Configuration).
Context (unusedProductionFiles usedNonEntryFiles : list SourceFile).

Abbreviation processDeclaration_ :=
  (processDeclaration oracle configuration unusedProductionFiles usedNonEntryFiles).

(** A declaration that cannot make the identifier lookup throw: a named
    declaration or a member access has a child identifier. *)
Abbreviation resolvable declaration :=
  (shapeOf declaration = NamedDeclaration ∨ shapeOf declaration = MemberAccess →
   is_Some (representativeIdentifier declaration)).

(** The one way a declaration ends a run: it passes the category filter,
    is not exempted by a public tag, is a named declaration or a member
    access, and has no child identifier. *)
Theorem processDeclaration_throws_iff sourceFile declaration st :
  (∃ message, processDeclaration_ sourceFile declaration st = Throw message)
  ↔ categoryFiltered configuration (getType oracle declaration) = false
    ∧ publicTagged oracle configuration declaration = false
    ∧ (shapeOf declaration = NamedDeclaration ∨ shapeOf declaration = MemberAccess)
    ∧ representativeIdentifier declaration = None.
Proof.
  unfold processDeclaration. rewrite resolveIdentifier_shape.
  destruct (categoryFiltered _ _).
  { split; [by intros [? ?] | by intros [? _]]. }
  destruct (publicTagged _ _ _).
  { split; [by intros [? ?] | by intros (_ & ? & _)]. }
  destruct (shapeOf declaration) eqn:Hshape,
           (representativeIdentifier declaration) as [identifier|] eqn:Hfound; simpl.
  all: try (split; [intros [message Habsurd]; by destruct (alreadyReported _ _ _ _)
                   | by intros (_ & _ & [?|?] & ?)]).
  all: try (split; [by intros [? ?] | by intros (_ & _ & [?|?] & ?)]).
  - split; [intros _; repeat split; by left | intros _; by eexists].
  - split; [intros _; repeat split; by right | intros _; by eexists].
Qed.

Lemma processDeclaration_returns sourceFile declaration st :
  resolvable declaration →
  ∃ st', processDeclaration_ sourceFile declaration st = Ok st'.
Proof.
  intros Hres. unfold processDeclaration. rewrite resolveIdentifier_shape.
  destruct (categoryFiltered _ _); [by eexists|].
  destruct (publicTagged _ _ _); [by eexists|].
  destruct (shapeOf declaration) eqn:Hshape,
           (representativeIdentifier declaration) as [identifier|] eqn:Hfound; simpl;
    try (destruct (alreadyReported _ _ _ _); by eexists); try by eexists.
  - destruct Hres as [? ?]; [by left | done].
  - destruct Hres as [? ?]; [by right | done].
Qed.

Lemma verdict_None_iff sourceFile type identifier :
  verdict oracle sourceFile type identifier = None
  ↔ findReferences oracle identifier ≠ []
    ∧ isReferencedOnlyBySelf (findReferences oracle identifier) (getFilePath sourceFile)
      = false.
Proof.
  unfold verdict. destruct (findReferences oracle identifier) as [|r refs] eqn:Hrefs; simpl.
  { split; [done | by intros [? _]]. }
  destruct (isReferencedOnlyBySelf (r :: refs) (getFilePath sourceFile)); simpl.
  - split; [|by intros [_ ?]].
    destruct (0 <? length (findReferencingNamespaceNodes oracle sourceFile)); [done|].
    by destruct type.
  - done.
Qed.

Lemma addIssue_changes category issue st :
  addIssue oracle configuration unusedProductionFiles usedNonEntryFiles category issue st
  ≠ st.
Proof.
  intros Heq.
  pose proof (addIssue_counters oracle configuration unusedProductionFiles
                                usedNonEntryFiles category issue st) as Hc.
  rewrite Heq in Hc. apply (f_equal (counterOf category)) in Hc.
  rewrite counterOf_set_eq in Hc. lia.
Qed.

(** When a declaration leaves the state exactly as it was: it is filtered
    out by category, or exempted by a public tag, or has no identifier to
    find, or its identifier is held back by the guard, or the reference
    query answers something and the referencing files are not the
    declaring file alone. In every other case it throws or adds an issue. *)
Theorem processDeclaration_silent_iff sourceFile declaration st :
  processDeclaration_ sourceFile declaration st = Ok st
  ↔ categoryFiltered configuration (getType oracle declaration) = true
    ∨ publicTagged oracle configuration declaration = true
    ∨ resolveIdentifier declaration = Ok None
    ∨ ∃ identifier,
        resolveIdentifier declaration = Ok (Some identifier)
        ∧ (alreadyReported configuration (getFilePath sourceFile) (getText identifier) st
           = true
           ∨ (findReferences oracle identifier ≠ []
              ∧ isReferencedOnlyBySelf (findReferences oracle identifier)
                                       (getFilePath sourceFile) = false)).
Proof.
  unfold processDeclaration.
  destruct (categoryFiltered _ _); [split; [by left | done]|].
  destruct (publicTagged _ _ _); [split; [by right; left | done]|].
  destruct (resolveIdentifier declaration) as [[identifier|]|message]; simpl.
  - destruct (alreadyReported _ _ _ _) eqn:Hguard.
    + split; [|done]. intros _. right. right. right. exists identifier. split; [done|]. by left.
    + rewrite classify_verdict.
      destruct (verdict oracle sourceFile (getType oracle declaration) identifier)
        as [[category issue]|] eqn:Hverdict.
      * split.
        -- intros [= Heq]. by apply addIssue_changes in Heq.
        -- intros [?|[?|[?|(other & [= <-] & Hcase)]]]; try done.
           destruct Hcase as [Hheld|Hnone]; [congruence|].
           apply (verdict_None_iff sourceFile (getType oracle declaration)) in Hnone.
           congruence.
      * split; [|done]. intros _. right. right. right. exists identifier.
        split; [done|]. right. by apply verdict_None_iff in Hverdict.
  - split; [|done]. intros _. right. right. by left.
  - split; [done|]. by intros [?|[?|[?|(other & ? & _)]]].
Qed.

(** A file whose declarations are all resolvable is processed without a
    throw. *)
Lemma processSourceFile_returns sourceFile st :
  (∀ declaration,
      declaration ∈ concat (snd <$> getExportedDeclarations sourceFile) →
      ∀ s, ∃ s', processDeclaration_ sourceFile declaration s = Ok s') →
  ∃ st', processSourceFile oracle configuration unusedProductionFiles usedNonEntryFiles
                           sourceFile st = Ok st'.
Proof.
  intros Hall. unfold processSourceFile.
  destruct (include_exports _ || include_types _ || include_members _); [|by eexists].
  destruct (size (uniqueExportedSymbols sourceFile) =? 1); [by eexists|].
  set (start := reportDuplicates _ _ _ _ _ _). clearbody start.
  assert (∃ s', forEach (fun declarations => forEach (processDeclaration_ sourceFile)
                                                     declarations)
                        (snd <$> getExportedDeclarations sourceFile) start = Ok s')
    as [s' ->]; [|by eexists].
  revert start Hall. generalize (snd <$> getExportedDeclarations sourceFile) as groups.
  induction groups as [|declarations groups IH]; intros start Hall; simpl; [by eexists|].
  assert (∃ s1, forEach (processDeclaration_ sourceFile) declarations start = Ok s1)
    as [s1 ->].
  { assert (∀ d, d ∈ declarations →
                 ∀ s, ∃ s', processDeclaration_ sourceFile d s = Ok s') as Hhere.
    { intros d Hd. apply Hall. simpl. apply elem_of_app. by left. }
    clear Hall IH. revert start.
    induction declarations as [|d declarations IHd]; intros start; simpl; [by eexists|].
    destruct (Hhere d (list_elem_of_here _ _) start) as [s2 ->]. simpl.
    apply IHd. intros d' Hd'. apply Hhere. by apply list_elem_of_further. }
  simpl. apply IH. intros d Hd. apply Hall. simpl. apply elem_of_app. by right.
Qed.

End Outcomes.

(** ** The guard where keys are relative paths *)

Section Guard.

Context (oracle : ParseOracle) (configuration : Configuration).
Context (unusedProductionFiles usedNonEntryFiles : list SourceFile).

Abbreviation add' :=
  (addIssue oracle configuration unusedProductionFiles usedNonEntryFiles).
Abbreviation unread' := (unreadKeys usedNonEntryFiles).
Abbreviation verdictOf' := (verdictOf oracle configuration).

(** No key that [addIssue] writes for one of the files is a path that
    the guard reads for one of them. *)
Hypothesis keys_apart :
  ∀ reader writer,
    reader ∈ usedNonEntryFiles → writer ∈ usedNonEntryFiles →
    relative oracle (cwd configuration) (getFilePath writer) ≠ getFilePath reader.

Lemma unreadKeys_guard sourceFile text st :
  sourceFile ∈ usedNonEntryFiles →
  unread' st →
  alreadyReported configuration (getFilePath sourceFile) text st = false.
Proof.
  intros Hin Hunread. unfold alreadyReported, hasIssue.
  pose proof (Hunread sourceFile exports Hin) as He.
  pose proof (Hunread sourceFile types Hin) as Ht.
  pose proof (Hunread sourceFile members Hin) as Hm.
  simpl in He, Ht, Hm. rewrite He, Ht, Hm. by rewrite !andb_false_r.
Qed.

Lemma addIssue_unreadKeys category issue sourceFile st :
  sourceFile ∈ usedNonEntryFiles →
  filePath issue = getFilePath sourceFile →
  unread' st →
  unread' (add' category issue st).
Proof.
  intros Hin Hfile Hunread reader other Hreader.
  rewrite addIssue_issues.
  destruct (decide (category = other)) as [<-|Hne].
  - rewrite issuesOf_set_eq. unfold storeIssue. rewrite lookup_insert_ne.
    + by apply Hunread.
    + rewrite Hfile. by apply keys_apart.
  - rewrite issuesOf_set_ne by done. by apply Hunread.
Qed.

Lemma foldl_addIssue_unreadKeys {A} category (mk : A → Issue) (xs : list A) sourceFile st :
  sourceFile ∈ usedNonEntryFiles →
  (∀ x, filePath (mk x) = getFilePath sourceFile) →
  unread' st →
  unread' (foldl (fun st x => add' category (mk x) st) st xs).
Proof.
  intros Hin Hfile. revert st. induction xs as [|x xs IH]; intros st Hunread; [done|].
  simpl. apply IH. by apply (addIssue_unreadKeys _ _ sourceFile).
Qed.

Lemma omap_cons_option {A B} (f : A → option B) (x : A) (l : list A) :
  omap f (x :: l) = option_list (f x) ++ omap f l.
Proof. simpl. by destruct (f x). Qed.

Lemma verdictCount_cons category verdict verdicts :
  verdictCount category (verdict :: verdicts)
  = (if decide (verdict.1 = category) then 1 else 0) + verdictCount category verdicts.
Proof.
  unfold verdictCount. rewrite filter_cons. by destruct (decide (verdict.1 = category)).
Qed.

Lemma verdictCount_app category verdicts1 verdicts2 :
  verdictCount category (verdicts1 ++ verdicts2)
  = verdictCount category verdicts1 + verdictCount category verdicts2.
Proof. unfold verdictCount. by rewrite filter_app, length_app. Qed.

(** With the keys unread, a declaration that is processed adds what its
    verdict says. *)
Lemma processDeclaration_counts sourceFile declaration st st' :
  sourceFile ∈ usedNonEntryFiles →
  unread' st →
  processDeclaration oracle configuration unusedProductionFiles usedNonEntryFiles
                     sourceFile declaration st = Ok st' →
  unread' st'
  ∧ ∀ category,
      counterOf category (counters st')
      = counterOf category (counters st)
        + verdictCount category (option_list (verdictOf' sourceFile declaration)).
Proof.
  intros Hin Hunread. unfold processDeclaration, verdictOf.
  destruct (categoryFiltered _ _); [intros [= <-]; split; [done|]; intros; unfold verdictCount; simpl; lia|].
  destruct (publicTagged _ _ _); [intros [= <-]; split; [done|]; intros; unfold verdictCount; simpl; lia|].
  destruct (resolveIdentifier declaration) as [[identifier|]|]; simpl;
    [| intros [= <-]; split; [done|]; intros; unfold verdictCount; simpl; lia | done].
  rewrite (unreadKeys_guard sourceFile) by done.
  intros [= <-]. rewrite classify_verdict.
  destruct (verdict oracle sourceFile (getType oracle declaration) identifier)
    as [[category issue]|] eqn:Hverdict; [|split; [done|]; intros; unfold verdictCount; simpl; lia].
  apply verdict_issue in Hverdict as (_ & Hfile & _).
  split; [by apply (addIssue_unreadKeys _ _ sourceFile)|].
  intros other. rewrite addIssue_counters. simpl option_list.
  rewrite verdictCount_cons. simpl. unfold verdictCount. simpl.
  destruct (decide (category = other)) as [<-|Hne].
  - rewrite counterOf_set_eq. lia.
  - rewrite counterOf_set_ne by done. lia.
Qed.

Lemma forEach_processDeclaration_counts sourceFile declarations st st' :
  sourceFile ∈ usedNonEntryFiles →
  unread' st →
  forEach (processDeclaration oracle configuration unusedProductionFiles usedNonEntryFiles
                              sourceFile) declarations st = Ok st' →
  unread' st'
  ∧ ∀ category,
      counterOf category (counters st')
      = counterOf category (counters st)
        + verdictCount category (omap (verdictOf' sourceFile) declarations).
Proof.
  intros Hin. revert st.
  induction declarations as [|declaration declarations IH]; intros st Hunread.
  - intros [= <-]. split; [done|]. intros category. unfold verdictCount. simpl. lia.
  - cbn [forEach].
    destruct (processDeclaration _ _ _ _ _ _ st) as [s|] eqn:Hdeclaration; [|done].
    cbn [bind]. intros Hrest.
    apply processDeclaration_counts in Hdeclaration as [Hs Hcount]; [|done|done].
    destruct (IH s Hs Hrest) as [Hst' Hcount']. split; [done|].
    intros category. rewrite Hcount', Hcount.
    rewrite omap_cons_option, verdictCount_app. lia.
Qed.

Lemma forEach_declarations_counts sourceFile (groups : list (list Node)) st st' :
  sourceFile ∈ usedNonEntryFiles →
  unread' st →
  forEach (fun declarations =>
             forEach (processDeclaration oracle configuration unusedProductionFiles
                                         usedNonEntryFiles sourceFile) declarations)
          groups st = Ok st' →
  unread' st'
  ∧ ∀ category,
      counterOf category (counters st')
      = counterOf category (counters st)
        + verdictCount category (omap (verdictOf' sourceFile) (concat groups)).
Proof.
  intros Hin. revert st.
  induction groups as [|declarations groups IH]; intros st Hunread; simpl.
  - intros [= <-]. split; [done|]. intros category. unfold verdictCount. simpl. lia.
  - destruct (forEach _ declarations st) as [s|] eqn:Hgroup; simpl; [|done].
    intros Hrest.
    apply forEach_processDeclaration_counts in Hgroup as [Hs Hcount]; [|done|done].
    destruct (IH s Hs Hrest) as [Hst' Hcount']. split; [done|].
    intros category. rewrite Hcount', Hcount, omap_app, verdictCount_app. lia.
Qed.

Lemma incrementProcessed_counterOf category st :
  counterOf category (counters (incrementProcessed st)) = counterOf category (counters st).
Proof. by destruct category. Qed.

(** With the keys unread, a file that is processed adds to [exports],
    [types] and [members] what the verdicts on its declarations say. *)
Lemma processSourceFile_counts sourceFile st st' :
  sourceFile ∈ usedNonEntryFiles →
  unread' st →
  processSourceFile oracle configuration unusedProductionFiles usedNonEntryFiles
                    sourceFile st = Ok st' →
  unread' st'
  ∧ ∀ category, category ≠ duplicates →
      counterOf category (counters st')
      = counterOf category (counters st)
        + verdictCount category (verdictsOf oracle configuration sourceFile).
Proof.
  intros Hin Hunread. unfold processSourceFile, verdictsOf, classifies.
  set (start := reportDuplicates _ _ _ _ _ _).
  assert (unread' start) as Hstart.
  { subst start. unfold reportDuplicates. destruct (include_duplicates _); [|done].
    by apply (foldl_addIssue_unreadKeys
                duplicates
                (fun names => MkIssue (getFilePath sourceFile) (join "," names)
                                      None (Some names))
                _ sourceFile). }
  assert (∀ category, category ≠ duplicates →
            counterOf category (counters start) = counterOf category (counters st))
    as Hsame.
  { intros category Hne.
    destruct (reportDuplicates_sameOutside oracle configuration unusedProductionFiles
                                           usedNonEntryFiles sourceFile st) as [Hout _].
    by apply Hout. }
  clearbody start.
  destruct (include_exports _ || include_types _ || include_members _); simpl.
  - destruct (size (uniqueExportedSymbols sourceFile) =? 1); simpl.
    + intros [= <-]. split; [done|]. intros category Hne. rewrite Hsame by done.
      unfold verdictCount. simpl. lia.
    + destruct (forEach _ _ start) as [s|] eqn:Hloop; simpl; [|done].
      intros [= <-].
      apply forEach_declarations_counts in Hloop as [Hs Hcount]; [|done|done].
      split; [done|]. intros category Hne.
      by rewrite incrementProcessed_counterOf, Hcount, Hsame.
  - intros [= <-]. split; [done|]. intros category Hne.
    rewrite incrementProcessed_counterOf, Hsame by done. unfold verdictCount. simpl. lia.
Qed.

End Guard.

Lemma forEach_processSourceFile_counts
      oracle configuration unusedProductionFiles usedNonEntryFiles files st st' :
  (∀ reader writer,
      reader ∈ usedNonEntryFiles → writer ∈ usedNonEntryFiles →
      relative oracle (cwd configuration) (getFilePath writer) ≠ getFilePath reader) →
  files ⊆ usedNonEntryFiles →
  unreadKeys usedNonEntryFiles st →
  forEach (processSourceFile oracle configuration unusedProductionFiles usedNonEntryFiles)
          files st = Ok st' →
  unreadKeys usedNonEntryFiles st'
  ∧ ∀ category, category ≠ duplicates →
      counterOf category (counters st')
      = counterOf category (counters st)
        + verdictCount category (concat (verdictsOf oracle configuration <$> files)).
Proof.
  intros Hapart. revert st.
  induction files as [|file files IH]; intros st Hsub Hunread.
  - intros [= <-]. split; [done|]. intros category _. unfold verdictCount. simpl. lia.
  - cbn [forEach].
    destruct (processSourceFile _ _ _ _ file st) as [s|] eqn:Hfile; [|done].
    cbn [bind]. intros Hrest.
    apply processSourceFile_counts in Hfile as [Hs Hcount];
      [|done|apply Hsub, list_elem_of_here|done].
    destruct (IH s) as [Hst' Hcount']; [|done|done|].
    { intros f Hf. by apply Hsub, list_elem_of_further. }
    split; [done|]. intros category Hne.
    rewrite fmap_cons, concat_cons, verdictCount_app, Hcount', Hcount by done. lia.
Qed.

(** ** Invariants of [run] *)

Section RunInvariants.

Context (oracle : ParseOracle) (configuration : Configuration).
Context (entryFiles productionFiles projectFiles : list SourceFile).

Abbreviation unused_ := (unusedOf productionFiles projectFiles).
Abbreviation used_ := (usedNonEntryOf entryFiles productionFiles projectFiles).
Abbreviation run_ := (run oracle configuration entryFiles productionFiles projectFiles).
Abbreviation steps_ :=
  (reaches oracle configuration unused_ used_ (allowed oracle configuration used_)).

(** A run that returns went from its start through allowed steps to a
    state that the final reset only adds a terminal event to. *)
Lemma run_reaches st :
  run_ = Ok st →
  ∃ mid,
    steps_ (startOf unused_) mid
    ∧ issues st = issues mid
    ∧ counters st = counters mid
    ∧ terminal st
      = terminal mid ++ (if isShowProgress configuration then [ResetLines] else []).
Proof.
  unfold run, unusedOf, usedNonEntryOf.
  destruct (partitionSourceFiles projectFiles productionFiles) as [used unused].
  simpl. destruct (partitionSourceFiles used entryFiles) as [entries usedNonEntry].
  simpl. fold (startOf unused).
  destruct (include_exports _ || include_types _ || include_members _
            || include_duplicates _).
  - destruct (forEach _ _ _) as [mid|] eqn:Hloop; simpl; [|done].
    intros [= <-]. exists mid. split; [by apply forEach_processSourceFile_reaches|].
    destruct (isShowProgress configuration); simpl; by rewrite ?app_nil_r.
  - simpl. intros [= <-]. exists (startOf unused). split; [apply reaches_refl|].
    destruct (isShowProgress configuration); simpl; by rewrite ?app_nil_r.
Qed.

Lemma run_files st :
  run_ = Ok st →
  issues_files (issues st) = list_to_set (getFilePath <$> unused_)
  ∧ counters_files (counters st) = size (issues_files (issues st)).
Proof.
  intros (mid & Hsteps & -> & -> & _)%run_reaches.
  apply reaches_files in Hsteps as [-> ->]. done.
Qed.

(** Whatever the flags and the files, a run that returns leaves the set
    of unused files as it built it: a path is in [issues.files] exactly
    when it is the path of an unused file, and [counters.files] is the
    size of that set, at most the number of unused files. *)
Theorem run_keeps_unused_files st :
  run oracle configuration entryFiles productionFiles projectFiles = Ok st →
  (∀ path, path ∈ issues_files (issues st)
           ↔ ∃ file, file ∈ unused_ ∧ getFilePath file = path)
  ∧ counters_files (counters st) = size (issues_files (issues st))
  ∧ counters_files (counters st) ≤ length unused_.
Proof.
  intros (mid & Hsteps & -> & -> & _)%run_reaches.
  apply reaches_files in Hsteps as [-> ->]. simpl. split; [|split; [done|]].
  - intros path. rewrite elem_of_list_to_set, list_elem_of_fmap.
    split; intros (file & ? & ?); by exists file.
  - rewrite <- (length_fmap getFilePath unused_).
    generalize (getFilePath <$> unused_) as paths. intros paths.
    induction paths as [|path paths IH]; [done|].
    rewrite list_to_set_cons, size_union_alt, size_singleton.
    assert (size ((list_to_set paths : gset string) ∖ {[path]})
            ≤ size (list_to_set paths : gset string)) as Hle
      by (apply subseteq_size; by intros x [? _]%elem_of_difference).
    simpl. lia.
Qed.

(** Every issue a run returns sits under the key [addIssue] computes for
    it: the path of its file relative to [cwd], then its symbol; and its
    file is one of the used non-entry files. *)
Theorem run_issues_under_own_key st category file text issue :
  run_ = Ok st →
  lookupIssue (issuesOf category (issues st)) file text = Some issue →
  file = relative oracle (cwd configuration) (filePath issue)
  ∧ text = symbol issue
  ∧ ∃ sourceFile, sourceFile ∈ used_ ∧ filePath issue = getFilePath sourceFile.
Proof.
  intros (mid & Hsteps & -> & _ & _)%run_reaches Hlook.
  unshelve epose proof (reaches_stored oracle configuration unused_ used_
            (fun _ issue => ∃ sourceFile, sourceFile ∈ used_
                                          ∧ filePath issue = getFilePath sourceFile)
            _ _ _ _ Hsteps _ category file text issue Hlook) as Hstored.
  { intros s c i (sourceFile & Hin & Hemit). exists sourceFile. split; [done|].
      by apply emitted_shape in Hemit as [-> _]. }
  { intros c f t i. by destruct c. }
  destruct Hstored as (Hfile & -> & ->). done.
Qed.

(** The fields of a returned issue follow its category: [exports] and
    [members] issues carry neither [symbolType] nor [symbols], [types]
    issues carry a [symbolType] and no [symbols], [duplicates] issues
    carry the names as [symbols], their comma-joined text as [symbol], and
    no [symbolType]. *)
Theorem run_issue_fields st category file text issue :
  run_ = Ok st →
  lookupIssue (issuesOf category (issues st)) file text = Some issue →
  match category with
  | duplicates =>
      symbolType issue = None
      ∧ ∃ names, symbols issue = Some names ∧ symbol issue = join "," names
  | types => is_Some (symbolType issue) ∧ symbols issue = None
  | exports | members => symbolType issue = None ∧ symbols issue = None
  end.
Proof.
  intros (mid & Hsteps & -> & _ & _)%run_reaches Hlook.
  unshelve epose proof (reaches_stored oracle configuration unused_ used_
            (fun category issue =>
               match category with
               | duplicates =>
                   symbolType issue = None
                   ∧ ∃ names, symbols issue = Some names ∧ symbol issue = join "," names
               | types => is_Some (symbolType issue) ∧ symbols issue = None
               | exports | members => symbolType issue = None ∧ symbols issue = None
               end)
            _ _ _ _ Hsteps _ category file text issue Hlook) as Hstored.
  { intros s c i (sourceFile & _ & Hemit). by apply emitted_shape in Hemit as [_ ?]. }
  { intros c f t i. by destruct c. }
  by destruct Hstored as (Hfields & _ & _).
Qed.

(** A symbol returned under [exports], [types] or [members] is the text
    of the identifier that [resolveIdentifier] finds for an exported
    declaration of that file, one that passes the category filter and is
    not exempted by a public tag. *)
Theorem run_symbol_is_exported_identifier st category file text issue :
  run_ = Ok st →
  category ≠ duplicates →
  lookupIssue (issuesOf category (issues st)) file text = Some issue →
  ∃ sourceFile declaration identifier,
    sourceFile ∈ used_
    ∧ filePath issue = getFilePath sourceFile
    ∧ declaration ∈ concat (snd <$> getExportedDeclarations sourceFile)
    ∧ resolveIdentifier declaration = Ok (Some identifier)
    ∧ text = getText identifier
    ∧ categoryFiltered configuration (getType oracle declaration) = false
    ∧ publicTagged oracle configuration declaration = false.
Proof.
  intros (mid & Hsteps & -> & _ & _)%run_reaches Hcategory Hlook.
  unshelve epose proof (reaches_stored oracle configuration unused_ used_
            (fun category issue =>
               category ≠ duplicates →
               ∃ sourceFile declaration identifier,
                 sourceFile ∈ used_
                 ∧ filePath issue = getFilePath sourceFile
                 ∧ declaration ∈ concat (snd <$> getExportedDeclarations sourceFile)
                 ∧ resolveIdentifier declaration = Ok (Some identifier)
                 ∧ symbol issue = getText identifier
                 ∧ categoryFiltered configuration (getType oracle declaration) = false
                 ∧ publicTagged oracle configuration declaration = false)
            _ _ _ _ Hsteps _ category file text issue Hlook) as Hstored.
  { intros s c i (sourceFile & Hin & [(-> & _)|(_ & declaration & identifier & Hd & Hcat
                                                    & Hpub & Hres & _ & Hv)]) Hne; [done|].
      apply verdict_issue in Hv as (_ & Hfile & Hsymbol & _).
      by exists sourceFile, declaration, identifier. }
  { intros c f t i. by destruct c. }
  destruct Hstored as (Hfrom & _ & ->).
    destruct (Hfrom Hcategory) as (sourceFile & declaration & identifier & H).
    by exists sourceFile, declaration, identifier.
Qed.

Lemma forEach_returns {A} (f : A → State → result State) (xs : list A) st :
  (∀ x, x ∈ xs → ∀ s, ∃ s', f x s = Ok s') →
  ∃ st', forEach f xs st = Ok st'.
Proof.
  revert st. induction xs as [|x xs IH]; intros st Hall; simpl; [by eexists|].
  destruct (Hall x (list_elem_of_here _ _) st) as [s ->]. simpl.
  apply IH. intros y Hy. apply Hall. by apply list_elem_of_further.
Qed.

Lemma run_returns_of_files :
  (∀ sourceFile,
      sourceFile ∈ used_ →
      ∀ s, ∃ s', processSourceFile oracle configuration unused_ used_ sourceFile s = Ok s') →
  ∃ st, run_ = Ok st.
Proof.
  unfold run, unusedOf, usedNonEntryOf.
  destruct (partitionSourceFiles projectFiles productionFiles) as [used unused].
  simpl. destruct (partitionSourceFiles used entryFiles) as [entries usedNonEntry].
  simpl. intros Hall.
  destruct (include_exports _ || include_types _ || include_members _
            || include_duplicates _); [|by eexists].
  edestruct (forEach_returns (processSourceFile oracle configuration unused usedNonEntry)
                             usedNonEntry) as [mid ->]; [exact Hall|].
  by eexists.
Qed.

(** A run returns, whatever the references, the flags and the terminal
    setting, when every exported declaration of the used non-entry files
    that is a named declaration or a member access has a child
    identifier. *)
Theorem run_returns_when_resolvable :
  (∀ sourceFile declaration,
      sourceFile ∈ used_ →
      declaration ∈ concat (snd <$> getExportedDeclarations sourceFile) →
      shapeOf declaration = NamedDeclaration ∨ shapeOf declaration = MemberAccess →
      is_Some (representativeIdentifier declaration)) →
  ∃ st, run_ = Ok st.
Proof.
  intros Hall. apply run_returns_of_files. intros sourceFile Hin s.
  apply processSourceFile_returns. intros declaration Hdecl s0.
  apply processDeclaration_returns. by apply (Hall sourceFile).
Qed.

Lemma start_empty category :
  issuesOf category (issues (startOf unused_)) = ∅
  ∧ counterOf category (counters (startOf unused_)) = 0.
Proof. by destruct category. Qed.

(** With [members] and [types] both disabled a run never reports under
    [types]: the map is empty and the counter zero at the end. *)
Theorem run_without_types st :
  include_members (include configuration) = false →
  include_types (include configuration) = false →
  run oracle configuration entryFiles productionFiles projectFiles = Ok st →
  issues_types (issues st) = ∅ ∧ counters_types (counters st) = 0.
Proof.
  intros Hmembers Htypes (mid & Hsteps & -> & -> & _)%run_reaches.
  apply (reaches_frame _ _ _ _ _ types) in Hsteps as [Hi Hc].
  - destruct (start_empty types) as [Hi0 Hc0]. simpl in *. by rewrite Hi, Hc.
  - intros s category issue
           (sourceFile & _ & [(-> & _)|(_ & declaration & identifier & _ & Hcat
                                          & _ & _ & _ & Hv)]); [done|].
    intros ->. apply verdict_issue in Hv as (_ & _ & _ & _ & _ & Htype).
    destruct (Htype eq_refl) as [signature Hsig].
    unfold categoryFiltered in Hcat. rewrite Hsig, Hmembers, Htypes in Hcat. done.
Qed.

(** With only [duplicates] enabled a run always returns, reports nothing
    under [exports], [types] and [members], and counts every used
    non-entry file as processed. *)
Theorem run_duplicates_only :
  include_exports (include configuration) = false →
  include_types (include configuration) = false →
  include_members (include configuration) = false →
  include_duplicates (include configuration) = true →
  ∃ st,
    run_ = Ok st
    ∧ (∀ category, category ≠ duplicates →
         issuesOf category (issues st) = ∅ ∧ counterOf category (counters st) = 0)
    ∧ counters_processed (counters st) = counters_files (counters st) + length used_.
Proof.
  intros Hexports Htypes Hmembers Hduplicates.
  assert (classifies configuration = false) as Hflags.
  { unfold classifies. by rewrite Hexports, Htypes, Hmembers. }
  destruct run_returns_of_files as [st Hrun].
  { intros sourceFile _ s. unfold processSourceFile.
    rewrite Hexports, Htypes, Hmembers. by eexists. }
  exists st. split; [done|]. split.
  - intros category Hne.
    destruct (run_reaches st Hrun) as (mid & Hsteps & -> & -> & _).
    apply (reaches_frame _ _ _ _ _ category) in Hsteps as [-> ->]; [apply start_empty|].
    intros s c i (sourceFile & _ & [(-> & _)|(Habsurd & _)]); [done | congruence].
  - pose proof (run_files st Hrun) as [Hfiles ->]. rewrite Hfiles.
    rewrite (run_processed oracle configuration entryFiles productionFiles projectFiles st);
      [|by rewrite Hduplicates, !orb_true_r | done].
    f_equal. fold unused_ used_.
    assert (∀ files : list SourceFile,
              filter (fun file => skipsClassification configuration file = false) files
              = files) as ->; [|done].
    induction files as [|file files IH]; [done|].
    rewrite filter_cons, decide_True, IH; [done|].
    unfold skipsClassification. by rewrite Hexports, Htypes, Hmembers.
Qed.

(** When public tags are honoured and every exported declaration of the
    used non-entry files carries one, a run always returns and reports
    nothing under [exports], [types] and [members]. *)
Theorem run_all_public :
  isReadPublicTag configuration = true →
  (∀ sourceFile declaration,
      sourceFile ∈ used_ →
      declaration ∈ concat (snd <$> getExportedDeclarations sourceFile) →
      getJSDocPublicTag oracle declaration = true) →
  ∃ st,
    run_ = Ok st
    ∧ ∀ category, category ≠ duplicates →
        issuesOf category (issues st) = ∅ ∧ counterOf category (counters st) = 0.
Proof.
  intros Hread Htagged.
  destruct run_returns_of_files as [st Hrun].
  { intros sourceFile Hin s. apply processSourceFile_returns. intros declaration Hdecl s0.
    unfold processDeclaration, publicTagged.
    rewrite Hread, (Htagged sourceFile declaration Hin Hdecl). simpl.
    destruct (categoryFiltered _ _); by eexists. }
  exists st. split; [done|]. intros category Hne.
  destruct (run_reaches st Hrun) as (mid & Hsteps & -> & -> & _).
  apply (reaches_frame _ _ _ _ _ category) in Hsteps as [-> ->]; [apply start_empty|].
  intros s c i (sourceFile & Hin & [(-> & _)|(_ & declaration & identifier & Hdecl & _
                                                & Hpub & _)]); [done|].
  unfold publicTagged in Hpub.
  by rewrite Hread, (Htagged sourceFile declaration Hin Hdecl) in Hpub.
Qed.

(** The processed count of a run that enters the loop: the number of
    unused paths it starts from plus the used non-entry files that are
    not left at line 92; so it never exceeds the start plus the number of
    used non-entry files, and reaches it exactly when no file is left
    early. *)
Theorem run_counts_files_not_left_early st :
  include_exports (include configuration)
  || include_types (include configuration)
  || include_members (include configuration)
  || include_duplicates (include configuration) = true →
  run_ = Ok st →
  let counted :=
    filter (fun file => skipsClassification configuration file = false) used_ in
  counters_processed (counters st) = counters_files (counters st) + length counted
  ∧ counters_processed (counters st) ≤ counters_files (counters st) + length used_
  ∧ (counters_processed (counters st) = counters_files (counters st) + length used_
     ↔ ∀ file, file ∈ used_ → skipsClassification configuration file = false).
Proof.
  intros Hflags Hrun counted.
  pose proof (run_files st Hrun) as [Hfiles Hcount].
  pose proof (run_processed oracle configuration entryFiles productionFiles projectFiles
                            st Hflags Hrun) as Hprocessed.
  simpl in Hprocessed. fold unused_ used_ counted in Hprocessed.
  rewrite Hcount, Hfiles, Hprocessed.
  pose proof (length_filter (fun file => skipsClassification configuration file = false)
                            used_) as Hle.
  fold counted in Hle. split; [done|]. split; [lia|]. split.
  - intros Heq file Hin.
    destruct (skipsClassification configuration file) eqn:Hskip; [|done].
    assert (length counted < length used_) as Hlt; [|lia].
    apply (length_filter_lt _ _ file Hin). by rewrite Hskip.
  - subst counted. clear. generalize used_ as files. intros files Hall. do 2 f_equal.
    induction files as [|file files IH]; [done|].
    rewrite filter_cons, decide_True.
    + f_equal. apply IH. intros other Hother. apply Hall. by apply list_elem_of_further.
    + apply Hall, list_elem_of_here.
Qed.

(** With progress shown, the terminal of a run holds one render per
    counted issue, each with the same total, and then the reset; without
    progress it holds nothing. *)
Theorem run_renders_once_per_issue st :
  run_ = Ok st →
  if isShowProgress configuration
  then ∃ updates,
         terminal st = updates ++ [ResetLines]
         ∧ length updates = issueCount (counters st)
         ∧ Forall (fun event =>
                     ∃ percentage counter rest,
                       event = Update (ProgressLine percentage counter
                                                    (length unused_ + length used_)
                                       :: rest)) updates
  else terminal st = [].
Proof.
  intros (mid & Hsteps & _ & -> & ->)%run_reaches.
  apply reaches_terminal in Hsteps as (updates & -> & Hall & Hcount & Hoff).
  destruct (isShowProgress configuration).
  - exists updates. split; [done|]. split; [|done]. by rewrite (Hcount eq_refl).
  - by rewrite (Hoff eq_refl).
Qed.

(** The file counter shown by the renders of a run never decreases from
    one render to the next; every shown value lies between the number of
    unused files plus [counters.files] and the number of unused files plus
    the final [counters.processed]. *)
Theorem run_progress_never_decreases st :
  run_ = Ok st →
  StronglySorted le (renderedCounters (terminal st))
  ∧ Forall (fun counter =>
              length unused_ + counters_files (counters st)
              ≤ counter
              ≤ length unused_ + counters_processed (counters st))
           (renderedCounters (terminal st)).
Proof.
  intros (mid & Hsteps & _ & -> & ->)%run_reaches.
  pose proof (reaches_files _ _ _ _ _ _ _ Hsteps) as [_ Hfiles].
  apply reaches_counters in Hsteps as (_ & shown & Hshown & Hsorted & Hall).
  assert (renderedCounters
            (terminal mid ++ (if isShowProgress configuration then [ResetLines] else []))
          = shown) as ->.
  { unfold renderedCounters in *. rewrite omap_app, Hshown.
    destruct (isShowProgress configuration); simpl; by rewrite app_nil_r. }
  split; [done|]. by rewrite Hfiles.
Qed.

(** A counter never falls short of what its map holds: the distinct keys
    that hold an issue of a category are at most as many as the counter of
    that category says. *)
Theorem run_counters_cover_stored st category :
  run_ = Ok st →
  ∃ keys,
    storedKeys (issuesOf category (issues st)) keys
    ∧ length keys ≤ counterOf category (counters st).
Proof.
  intros (mid & Hsteps & -> & -> & _)%run_reaches. revert category.
  eapply (reaches_invariant _ _ _ _
            (fun s => ∀ category, ∃ keys,
                 storedKeys (issuesOf category (issues s)) keys
                 ∧ length keys ≤ counterOf category (counters s)));
    [| |exact Hsteps|].
  - intros s category issue IH _ other.
    destruct (decide (category = other)) as [<-|Hne].
    + destruct (IH category) as (keys & Hkeys & Hle).
      destruct (storedKeys_insert _ keys
                  (relative oracle (cwd configuration) (filePath issue))
                  (symbol issue) issue Hkeys) as (keys' & Hkeys' & Hlen).
      exists keys'. rewrite addIssue_issues, addIssue_counters.
      rewrite issuesOf_set_eq, counterOf_set_eq. split; [done|].
      rewrite Hlen. case_decide; lia.
    + destruct (addIssue_frame oracle configuration unused_ used_
                               category issue s other Hne) as [-> ->].
      apply IH.
  - intros s IH category. destruct (IH category) as (keys & Hkeys & Hle).
    exists keys. split; [done|]. by destruct category.
  - intros category. exists []. destruct (start_empty category) as [-> ->].
    split; [|done]. split; [constructor|]. intros file text.
    unfold lookupIssue. rewrite lookup_empty. simpl. split.
    + by intros ?%elem_of_nil.
    + by intros [? ?].
Qed.

(** Where no key that [addIssue] writes for a used non-entry file is a
    path that the guard of lines 126-128 reads for one, as with
    [path.relative] on absolute paths, the guard holds nothing back. At
    the end of a run that returns, no category has a per-file object
    under the path of a used non-entry file, so the guard is false there
    for every identifier text; and the counters of [exports], [types]
    and [members] are the numbers of verdicts for them over all
    declarations of the files that line 92 does not leave early, a
    second declaration of one name counted like the first. *)
Theorem run_guard_holds_nothing_back st :
  (∀ reader writer,
      reader ∈ used_ → writer ∈ used_ →
      relative oracle (cwd configuration) (getFilePath writer) ≠ getFilePath reader) →
  run oracle configuration entryFiles productionFiles projectFiles = Ok st →
  unreadKeys used_ st
  ∧ (∀ sourceFile text,
       sourceFile ∈ used_ →
       alreadyReported configuration (getFilePath sourceFile) text st = false)
  ∧ (∀ category, category ≠ duplicates →
       counterOf category (counters st)
       = verdictCount category (concat (verdictsOf oracle configuration <$> used_))).
Proof.
  intros Hapart Hrun.
  assert (unreadKeys used_ st
          ∧ ∀ category, category ≠ duplicates →
              counterOf category (counters st)
              = verdictCount category (concat (verdictsOf oracle configuration <$> used_)))
    as [Hunread Hcount].
  { revert Hapart Hrun. unfold run, usedNonEntryOf.
    destruct (partitionSourceFiles projectFiles productionFiles) as [used unused].
    simpl. destruct (partitionSourceFiles used entryFiles) as [entries usedNonEntry].
    simpl. intros Hapart.
    set (start := MkState _ _ _).
    assert (unreadKeys usedNonEntry start) as Hstart.
    { intros sourceFile category _. by destruct category. }
    assert (∀ category, category ≠ duplicates → counterOf category (counters start) = 0)
      as Hzero.
    { intros category Hne. by destruct category. }
    clearbody start.
    destruct (include_exports _ || include_types _ || include_members _
              || include_duplicates _) eqn:Hflags.
    - destruct (forEach _ _ start) as [mid|] eqn:Hloop; simpl; [|done].
      intros [= <-].
      apply forEach_processSourceFile_counts in Hloop as [Hmid Hcount];
        [|done|done|done].
      split.
      + intros sourceFile category Hin.
        destruct (isShowProgress configuration); by apply Hmid.
      + intros category Hne.
        destruct (isShowProgress configuration); simpl;
          by rewrite Hcount, Hzero.
    - simpl. intros [= <-].
      assert (classifies configuration = false) as Hclassifies.
      { unfold classifies. apply orb_false_elim in Hflags as [Hthree _]. exact Hthree. }
      split.
      + intros sourceFile category Hin.
        destruct (isShowProgress configuration); by apply Hstart.
      + intros category Hne.
        assert (concat (verdictsOf oracle configuration <$> usedNonEntry) = []) as ->.
        { induction usedNonEntry as [|file files IH]; [done|]. simpl.
          unfold verdictsOf at 1. rewrite Hclassifies. simpl. apply IH.
          - intros reader writer Hr Hw.
            apply Hapart; by apply list_elem_of_further.
          - intros sourceFile other Hin. apply Hstart. by apply list_elem_of_further. }
        destruct (isShowProgress configuration); simpl; by rewrite Hzero. }
  split; [done|]. split; [|done].
  intros sourceFile text Hin. by apply (unreadKeys_guard _ used_).
Qed.

End RunInvariants.

(** ** Runs on concrete projects *)

Module Scenario.

Import Fixture.

(** C1 on a merged declaration. The interface [Foo] is reported under
    [types]; the guard then looks [Foo] up under the absolute path
    ["/proj/b.ts"] while the issue is stored under the relative path
    ["b.ts"], so it does not hold the constant [Foo] back, which is
    reported under [exports]: two issues for one (file, name). *)
Theorem C1_merged_name_reported_twice :
  ∃ st1 st,
    processDeclaration mergedOracle quiet [] [merged] merged fooInterface initial = Ok st1
    ∧ hasIssue (issues_types (issues st1)) "b.ts" "Foo" = true
    ∧ alreadyReported quiet "/proj/b.ts" "Foo" st1 = false
    ∧ run mergedOracle quiet [entry] [entry; merged] [entry; merged] = Ok st
    ∧ lookupIssue (issues_types (issues st)) "b.ts" "Foo"
      = Some (MkIssue "/proj/b.ts" "Foo" (Some "interface") None)
    ∧ lookupIssue (issues_exports (issues st)) "b.ts" "Foo"
      = Some (MkIssue "/proj/b.ts" "Foo" None None)
    ∧ counters_types (counters st) = 1
    ∧ counters_exports (counters st) = 1.
Proof.
  eexists. eexists.
  split; [vm_compute; reflexivity|].
  split; [vm_compute; reflexivity|].
  split; [vm_compute; reflexivity|].
  split; [vm_compute; reflexivity|].
  repeat split; vm_compute; reflexivity.
Qed.

(** C2 as stated fails: the file has one export name, [Foo], and is
    analyzed all the same, because that name has two declarations. *)
Lemma C2_one_name_two_declarations :
  remove_dups (fst <$> getExportedDeclarations merged) = ["Foo"]
  ∧ ∃ st,
      processSourceFile mergedOracle quiet [] [merged] merged initial = Ok st
      ∧ counters_exports (counters st) = 1
      ∧ counters_types (counters st) = 1
      ∧ lookupIssue (issues_exports (issues st)) "b.ts" "Foo"
        = Some (MkIssue "/proj/b.ts" "Foo" None None).
Proof.
  split; [vm_compute; reflexivity|].
  eexists. split; [vm_compute; reflexivity|].
  repeat split; vm_compute; reflexivity.
Qed.

(** The file with the single function [bar] is skipped. *)
Lemma C2_single_declaration_skipped_witness :
  ∃ st, processSourceFile singleOracle quiet [] [single] single initial = Ok st
        ∧ ∀ category, category ≠ duplicates →
            issuesOf category (issues st) = issuesOf category (issues initial)
            ∧ counterOf category (counters st) = counterOf category (counters initial).
Proof.
  apply (C2_single_declaration_skipped singleOracle quiet [] [single] single initial).
  vm_compute. reflexivity.
Defined.

(** C3 on a file with a single exported declaration: the run visits
    one used non-entry file and [processed] is still what it started
    from, because the callback returns at line 92, before line 154. *)
Theorem C3_skipped_file_not_counted :
  (partitionSourceFiles (partitionSourceFiles [entry; single] [entry; single]).1 [entry]).2
  = [single]
  ∧ ∃ st,
      run singleOracle quiet [entry] [entry; single] [entry; single] = Ok st
      ∧ counters_files (counters st) = 0
      ∧ counters_processed (counters st) = 0.
Proof.
  split; [vm_compute; reflexivity|].
  eexists. split; [vm_compute; reflexivity|].
  split; vm_compute; reflexivity.
Qed.

(** The type alias [T] of a file imported as a namespace object is
    reported under [members]. *)
Lemma C4_namespace_member_before_type_witness :
  processDeclaration namespacedOracle quiet [] [namespaced] namespaced tAlias initial
  = Ok (addIssue namespacedOracle quiet [] [namespaced] members
                 (MkIssue "/proj/ns.ts" "T" None None) initial).
Proof.
  apply (C4_namespace_member_before_type
           namespacedOracle quiet [] [namespaced] namespaced tAlias tIdentifier initial).
  - reflexivity.
  - reflexivity.
  - reflexivity.
  - vm_compute. reflexivity.
  - vm_compute. discriminate.
  - vm_compute. repeat constructor.
  - vm_compute. discriminate.
Defined.

(** [foo], referenced in its file only, is reported under [exports]:
    the issue is read back under ["lib.ts"] and counted; [baz], imported
    by the entry file, is not reported. *)
Lemma C5_reference_cases_witness :
  (∃ st',
     processDeclaration libraryOracle quiet [] [library] library fooFunction initial = Ok st'
     ∧ lookupIssue (issues_exports (issues st')) "lib.ts" "foo"
       = Some (MkIssue "/proj/lib.ts" "foo" None None)
     ∧ counters_exports (counters st') = 1)
  ∧ processDeclaration libraryOracle quiet [] [library] library bazFunction initial
    = Ok initial.
Proof.
  split.
  - pose proof (C5_reference_cases
                  libraryOracle quiet [] [library] library fooFunction fooIdentifier initial
                  eq_refl eq_refl eq_refl eq_refl) as (_ & Hself & _).
    destruct Hself as (st' & Hrun & _ & Hlook & Hcount & _).
    + vm_compute. discriminate.
    + vm_compute. repeat constructor.
    + reflexivity.
    + exists st'. split; [exact Hrun|]. split; [exact Hlook | exact Hcount].
  - pose proof (C5_reference_cases
                  libraryOracle quiet [] [library] library bazFunction bazIdentifier initial
                  eq_refl eq_refl eq_refl eq_refl) as (_ & _ & Houtside & _).
    apply Houtside. exists "/proj/a.ts". split; [|discriminate].
    vm_compute. apply list_elem_of_further, list_elem_of_here.
Defined.

(** C6 with three unused files and one used non-entry file: the first
    render shows 150 percent, 6 of 4 files, before any file is done. *)
Theorem C6_percentage_above_100 :
  ∃ st rest later,
    run libraryOracle verbose [entry] [entry; library] ([entry; library] ++ unreached)
    = Ok st
    ∧ terminal st = Update (ProgressLine (Number.of_nat 150) 6 4 :: rest) :: later
    ∧ Number.leb (Number.of_nat 150) (Number.of_nat 100) = false.
Proof.
  eexists. eexists. eexists.
  split; [vm_compute; reflexivity|].
  split; vm_compute; reflexivity.
Qed.

(** The percentage is computed in binary64 as written, the quotient
    first: 29 of 100 files render as 28 percent. *)
Lemma percentage_29_of_100 :
  Number.floor (Number.mul (Number.div (Number.of_nat 29) (Number.of_nat 100))
                           (Number.of_nat 100))
  = Number.of_nat 28.
Proof. vm_compute. reflexivity. Qed.

(** With [duplicates] disabled and the other categories enabled the
    file with the aliases [a] and [b] is analyzed and no [duplicates]
    issue is recorded. *)
Lemma duplicates_disabled_none_reported :
  namesBoundTo 50 (getExportedDeclarations aliased) = ["a"; "b"]
  ∧ ∃ st,
      run aliasedOracle withoutDuplicates [entry] [entry; aliased] [entry; aliased] = Ok st
      ∧ counters_processed (counters st) = 1
      ∧ counters_duplicates (counters st) = 0
      ∧ issues_duplicates (issues st) = ∅.
Proof.
  split; [vm_compute; reflexivity|].
  eexists. split; [vm_compute; reflexivity|].
  repeat split; vm_compute; reflexivity.
Qed.

(** The aliases [a] and [b] of one constant are reported once, as
    ["a,b"], and neither name on its own. *)
Lemma aliases_reported_once :
  let st := reportDuplicates aliasedOracle quiet [] [aliased] aliased initial in
  counters_duplicates (counters st) = 1
  ∧ lookupIssue (issues_duplicates (issues st)) "dup.ts" "a,b"
    = Some (MkIssue "/proj/dup.ts" "a,b" None (Some ["a"; "b"]))
  ∧ lookupIssue (issues_duplicates (issues st)) "dup.ts" "a" = None
  ∧ lookupIssue (issues_duplicates (issues st)) "dup.ts" "b" = None.
Proof. repeat split; vm_compute; reflexivity. Qed.

(** The file with the aliases [a] and [b] of declaration 50: the key
    ["a,b"] reads an issue whose [symbol] is ["a,b"], and the other
    categories are left alone. *)
Lemma C7_one_issue_per_group_witness :
  let st := reportDuplicates aliasedOracle quiet [] [aliased] aliased initial in
  (∃ issue,
     lookupIssue (issues_duplicates (issues st)) "dup.ts" "a,b" = Some issue
     ∧ symbol issue = "a,b")
  ∧ sameOutside duplicates initial st.
Proof.
  intros st.
  destruct (C7_one_issue_per_group aliasedOracle quiet [] [aliased] aliased initial)
    as [Henabled _].
  destruct (Henabled eq_refl)
    as (declarations & _ & Hmem & _ & _ & _ & Hstored & _ & Hsame & _).
  split; [|exact Hsame].
  destruct (Hstored 50) as (d' & _ & Hjoin & Hlook).
  - apply Hmem. vm_compute. lia.
  - eexists. split; [exact Hlook|]. exact Hjoin.
Defined.

(** C8 on a file with [export default function () {}] and
    [export const c = 2]. No representative identifier can be found for
    the anonymous function, a declaration of a named shape, and instead
    of skipping it [getFirstChildByKindOrThrow] throws; nothing catches
    the error, which leaves the callbacks and ends the run. A
    declaration of the fall-back shape without an identifier, such as a
    literal, is skipped silently in the same place. *)
Theorem C8_anonymous_function_throws :
  representativeIdentifier anonymousFunction = None
  ∧ shapeOf anonymousFunction = NamedDeclaration
  ∧ processDeclaration aliasedOracle quiet [] [anonymous] anonymous anonymousFunction initial
    = Throw "A child of the kind Identifier was expected."
  ∧ processSourceFile aliasedOracle quiet [] [anonymous] anonymous initial
    = Throw "A child of the kind Identifier was expected."
  ∧ run aliasedOracle quiet [entry] [entry; anonymous] [entry; anonymous]
    = Throw "A child of the kind Identifier was expected."
  ∧ representativeIdentifier literal = None
  ∧ shapeOf literal = OtherShape
  ∧ processDeclaration aliasedOracle quiet [] [anonymous] anonymous literal initial
    = Ok initial.
Proof. repeat split; vm_compute; reflexivity. Qed.

(** C9 on a file with [export const __proto__ = 1] and
    [export const foo = 2], neither used outside the file. Both are
    reported under [exports] and the counter is 2, but the per-file
    object has the single own property [foo]: the write of line 69 under
    the symbol [__proto__] stored no property and made the issue the
    prototype of the object. *)
Theorem C9_proto_symbol_counted_not_stored :
  let issue := MkIssue "/proj/p.ts" "__proto__" None None in
  let st1 := addIssue prototypedOracle quiet [] [prototyped] exports issue initial in
  counters_exports (counters st1) = 1
  ∧ ownIssue (issues_exports (issues st1)) "p.ts" "__proto__" = None
  ∧ issues_exports (issues st1) !! "p.ts" = Some (MkFileIssues ∅ (Some issue))
  ∧ ∃ st,
      run prototypedOracle quiet [entry] [entry; prototyped] [entry; prototyped] = Ok st
      ∧ counters_exports (counters st) = 2
      ∧ issues_exports (issues st) !! "p.ts"
        = Some (MkFileIssues {[ "foo" := MkIssue "/proj/p.ts" "foo" None None ]}
                             (Some issue))
      ∧ ownIssue (issues_exports (issues st)) "p.ts" "foo"
        = Some (MkIssue "/proj/p.ts" "foo" None None)
      ∧ ownIssue (issues_exports (issues st)) "p.ts" "__proto__" = None.
Proof.
  split; [vm_compute; reflexivity|].
  split; [vm_compute; reflexivity|].
  split; [vm_compute; reflexivity|].
  eexists. split; [vm_compute; reflexivity|].
  repeat split; vm_compute; reflexivity.
Qed.

(** With only [files] enabled the three unreached files are all that
    the run counts. *)
Lemma C10_only_unused_files_witness :
  ∃ st,
    run libraryOracle filesOnly [entry] [entry; library] ([entry; library] ++ unreached)
    = Ok st
    ∧ counters_processed (counters st) = 3
    ∧ terminal st = [ResetLines].
Proof.
  destruct (C10_only_unused_files
              libraryOracle filesOnly [entry] [entry; library]
              ([entry; library] ++ unreached))
    as (st & Hrun & _ & _ & _ & _ & _ & _ & _ & _ & _ & Hprocessed & _ & Hcount & Hterminal);
    try reflexivity.
  exists st. split; [exact Hrun|]. split; [|exact Hterminal].
  rewrite Hprocessed. apply Hcount.
  apply (bool_decide_unpack _). vm_compute. exact I.
Defined.

End Scenario.

(** ** The invariants on concrete projects *)

Module Coverage.

Import Fixture.

(** The library project: [foo] ends under [exports], three files are
    unreached. *)
Lemma run_keeps_unused_files_witness :
  ∃ st,
    run libraryOracle quiet [entry] [entry; library] ([entry; library] ++ unreached) = Ok st
    ∧ counters_files (counters st) = size (issues_files (issues st)).
Proof.
  eexists. split; [vm_compute; reflexivity|].
  refine (proj1 (proj2 (run_keeps_unused_files
                          libraryOracle quiet [entry] [entry; library]
                          ([entry; library] ++ unreached) _ _))).
  vm_compute. reflexivity.
Defined.

(** Of the two used files the one with a single declaration is left early
    and the other is counted. *)
Lemma run_counts_files_not_left_early_witness :
  ∃ st,
    run singleOracle quiet [entry] [entry; single; library] [entry; single; library] = Ok st
    ∧ counters_processed (counters st) = counters_files (counters st) + 1.
Proof.
  eexists. split; [vm_compute; reflexivity|].
  eapply (run_counts_files_not_left_early
            singleOracle quiet [entry] [entry; single; library] [entry; single; library]).
  - reflexivity.
  - vm_compute. reflexivity.
Defined.

(** With only [duplicates] enabled the file with the anonymous function
    does not stop the run, and both files are counted. *)
Lemma run_duplicates_only_witness :
  ∃ st,
    run aliasedOracle duplicatesOnly [entry] [entry; anonymous; aliased]
        [entry; anonymous; aliased] = Ok st
    ∧ (∀ category, category ≠ duplicates →
         issuesOf category (issues st) = ∅ ∧ counterOf category (counters st) = 0)
    ∧ counters_processed (counters st) = counters_files (counters st) + 2.
Proof.
  apply (run_duplicates_only aliasedOracle duplicatesOnly [entry]
                             [entry; anonymous; aliased] [entry; anonymous; aliased]);
    reflexivity.
Defined.

(** Both functions of the library have a name. *)
Lemma run_returns_when_resolvable_witness :
  ∃ st, run libraryOracle verbose [entry] [entry; library] [entry; library] = Ok st.
Proof.
  apply (run_returns_when_resolvable libraryOracle verbose [entry] [entry; library]
                                     [entry; library]).
  intros sourceFile declaration Hfile Hdeclaration _.
  vm_compute in Hfile. apply list_elem_of_singleton in Hfile as ->.
  apply elem_of_concat in Hdeclaration as (declarations & Hgroup & Hdeclaration).
  vm_compute in Hgroup.
  apply elem_of_cons in Hgroup as [->|Hgroup];
    [|apply list_elem_of_singleton in Hgroup as ->];
    apply list_elem_of_singleton in Hdeclaration as ->; vm_compute; by eexists.
Defined.

(** The issue of [foo] sits under [lib.ts], then [foo]. *)
Lemma run_issues_under_own_key_witness :
  ∃ st,
    run libraryOracle quiet [entry] [entry; library] [entry; library] = Ok st
    ∧ "lib.ts" = relative libraryOracle (cwd quiet) "/proj/lib.ts"
    ∧ "foo" = "foo"
    ∧ ∃ sourceFile,
        sourceFile ∈ usedNonEntryOf [entry] [entry; library] [entry; library]
        ∧ "/proj/lib.ts" = getFilePath sourceFile.
Proof.
  eexists. split; [vm_compute; reflexivity|].
  eapply (run_issues_under_own_key libraryOracle quiet [entry] [entry; library]
                                   [entry; library] _ exports "lib.ts" "foo"
                                   (MkIssue "/proj/lib.ts" "foo" None None)).
  - vm_compute. reflexivity.
  - vm_compute. reflexivity.
Defined.

(** The issue of the interface [Foo] carries its type and no names. *)
Lemma run_issue_fields_witness :
  ∃ st,
    run mergedOracle quiet [entry] [entry; merged] [entry; merged] = Ok st
    ∧ is_Some (Some "interface") ∧ @None (list string) = None.
Proof.
  eexists. split; [vm_compute; reflexivity|].
  eapply (run_issue_fields mergedOracle quiet [entry] [entry; merged] [entry; merged]
                           _ types "b.ts" "Foo"
                           (MkIssue "/proj/b.ts" "Foo" (Some "interface") None)).
  - vm_compute. reflexivity.
  - vm_compute. reflexivity.
Defined.

(** [foo] is the name of an exported function of the library. *)
Lemma run_symbol_is_exported_identifier_witness :
  ∃ st,
    run libraryOracle quiet [entry] [entry; library] [entry; library] = Ok st
    ∧ ∃ sourceFile declaration identifier,
        sourceFile ∈ usedNonEntryOf [entry] [entry; library] [entry; library]
        ∧ "/proj/lib.ts" = getFilePath sourceFile
        ∧ declaration ∈ concat (snd <$> getExportedDeclarations sourceFile)
        ∧ resolveIdentifier declaration = Ok (Some identifier)
        ∧ "foo" = getText identifier
        ∧ categoryFiltered quiet (getType libraryOracle declaration) = false
        ∧ publicTagged libraryOracle quiet declaration = false.
Proof.
  eexists. split; [vm_compute; reflexivity|].
  eapply (run_symbol_is_exported_identifier
            libraryOracle quiet [entry] [entry; library] [entry; library]
            _ exports "lib.ts" "foo" (MkIssue "/proj/lib.ts" "foo" None None)).
  - vm_compute. reflexivity.
  - discriminate.
  - vm_compute. reflexivity.
Defined.

(** With [types] and [members] disabled the interface [Foo] is filtered
    out. *)
Lemma run_without_types_witness :
  ∃ st,
    run mergedOracle withoutTypes [entry] [entry; merged] [entry; merged] = Ok st
    ∧ issues_types (issues st) = ∅
    ∧ counters_types (counters st) = 0.
Proof.
  eexists. split; [vm_compute; reflexivity|].
  apply (run_without_types mergedOracle withoutTypes [entry] [entry; merged]
                           [entry; merged]).
  - reflexivity.
  - reflexivity.
  - vm_compute. reflexivity.
Defined.

(** With a public tag on every declaration the anonymous function is
    never looked into. *)
Lemma run_all_public_witness :
  ∃ st,
    run (tagged aliasedOracle) honouringTags [entry] [entry; anonymous] [entry; anonymous]
    = Ok st
    ∧ ∀ category, category ≠ duplicates →
        issuesOf category (issues st) = ∅ ∧ counterOf category (counters st) = 0.
Proof.
  apply (run_all_public (tagged aliasedOracle) honouringTags [entry] [entry; anonymous]
                        [entry; anonymous]).
  - reflexivity.
  - intros sourceFile declaration _ _. reflexivity.
Defined.

(** One issue, one render of 3 + 1 files, one reset. *)
Lemma run_renders_once_per_issue_witness :
  ∃ st,
    run libraryOracle verbose [entry] [entry; library] ([entry; library] ++ unreached)
    = Ok st
    ∧ ∃ updates,
        terminal st = updates ++ [ResetLines]
        ∧ length updates = issueCount (counters st)
        ∧ Forall (fun event =>
                    ∃ percentage counter rest,
                      event = Update (ProgressLine percentage counter (3 + 1) :: rest))
                 updates.
Proof.
  eexists. split; [vm_compute; reflexivity|].
  apply (run_renders_once_per_issue libraryOracle verbose [entry] [entry; library]
                                    ([entry; library] ++ unreached)).
  vm_compute. reflexivity.
Defined.

(** The two renders of the merged declaration. *)
Lemma run_progress_never_decreases_witness :
  ∃ st,
    run mergedOracle verbose [entry] [entry; merged] [entry; merged] = Ok st
    ∧ StronglySorted le (renderedCounters (terminal st)).
Proof.
  eexists. split; [vm_compute; reflexivity|].
  eapply (run_progress_never_decreases mergedOracle verbose [entry] [entry; merged]
                                       [entry; merged]).
  vm_compute. reflexivity.
Defined.

(** One key under [exports], counted once. *)
Lemma run_counters_cover_stored_witness :
  ∃ st,
    run mergedOracle quiet [entry] [entry; merged] [entry; merged] = Ok st
    ∧ ∃ keys,
        storedKeys (issues_exports (issues st)) keys
        ∧ length keys ≤ counters_exports (counters st).
Proof.
  eexists. split; [vm_compute; reflexivity|].
  apply (run_counters_cover_stored mergedOracle quiet [entry] [entry; merged]
                                   [entry; merged] _ exports).
  vm_compute. reflexivity.
Defined.

(** The merged declarations of [Foo]: the key ["b.ts"] is not the path
    ["/proj/b.ts"], the guard is false at the end, and the interface and
    the constant are both counted, one under [types] and one under
    [exports]. *)
Lemma run_guard_holds_nothing_back_witness :
  ∃ st,
    run mergedOracle quiet [entry] [entry; merged] [entry; merged] = Ok st
    ∧ alreadyReported quiet "/proj/b.ts" "Foo" st = false
    ∧ counters_types (counters st) = 1
    ∧ counters_exports (counters st) = 1.
Proof.
  eexists. split; [vm_compute; reflexivity|].
  assert (usedNonEntryOf [entry] [entry; merged] [entry; merged] = [merged]) as Hused
    by (vm_compute; reflexivity).
  edestruct (run_guard_holds_nothing_back
               mergedOracle quiet [entry] [entry; merged] [entry; merged])
    as (_ & Hguard & Hcount); [| vm_compute; reflexivity |].
  - rewrite Hused. intros reader writer Hreader Hwriter.
    apply list_elem_of_singleton in Hreader. apply list_elem_of_singleton in Hwriter.
    subst reader writer. vm_compute. discriminate.
  - split; [|split].
    + apply (Hguard merged "Foo"). rewrite Hused. apply list_elem_of_here.
    + transitivity (verdictCount types (concat (verdictsOf mergedOracle quiet <$> [merged])));
        [|vm_compute; reflexivity].
      apply (Hcount types). discriminate.
    + transitivity (verdictCount exports
                                 (concat (verdictsOf mergedOracle quiet <$> [merged])));
        [|vm_compute; reflexivity].
      apply (Hcount exports). discriminate.
Defined.

(** An [exports] and a [types] issue for [Foo], in either order. *)
Lemma addIssue_commutes_witness :
  issues (addIssue mergedOracle quiet [] [merged] exports
                   (MkIssue "/proj/b.ts" "Foo" None None)
                   (addIssue mergedOracle quiet [] [merged] types
                             (MkIssue "/proj/b.ts" "Foo" (Some "interface") None) initial))
  = issues (addIssue mergedOracle quiet [] [merged] types
                     (MkIssue "/proj/b.ts" "Foo" (Some "interface") None)
                     (addIssue mergedOracle quiet [] [merged] exports
                               (MkIssue "/proj/b.ts" "Foo" None None) initial)).
Proof.
  apply (addIssue_commutes mergedOracle quiet [] [merged]).
  intros (Hcategory & _). discriminate Hcategory.
Defined.

(** Two [exports] issues for [Foo]: one entry, counted twice. *)
Lemma addIssue_overwrites_witness :
  counterOf exports
            (counters
               (addIssue mergedOracle quiet [] [merged] exports
                         (MkIssue "/proj/b.ts" "Foo" None None)
                         (addIssue mergedOracle quiet [] [merged] exports
                                   (MkIssue "/proj/b.ts" "Foo" (Some "overload") None)
                                   initial)))
  = 2 + counterOf exports (counters initial).
Proof.
  apply (addIssue_overwrites mergedOracle quiet [] [merged]); reflexivity.
Defined.

End Coverage.
